(** * x-generation: configuration resolution, tag-schema detection and
      idempotent output writing (pkg/main.go)

    A shallow embedding of the decision logic of [pkg/main.go]: the list and
    map merge utilities, the CRD tag-schema detector, the configuration
    resolver with its validation, and the output loop of [Exec].

    Go values are modelled as the program has them:
    - a [[]string] is a [list string] (the program never writes into the
      backing array of a slice it has handed out, [appendLists] builds its
      result in a fresh slice);
    - a [map[string]string] is a reference: either [nil] or the address of a
      map object in a store, so that two fields holding the same map see each
      other's writes;
    - a run-time panic (write into a nil map, nil pointer dereference) is an
      explicit outcome. *)

From stdpp Require Import gmap strings list fin_maps.

Open Scope string_scope.
Open Scope list_scope.

(** ** Outcomes of Go code that may panic *)

Inductive go (A : Type) : Type :=
  | Done (a : A)
  | Panic.
Arguments Done {A} a.
Arguments Panic {A}.

(** Sequencing: a panic ends the run.  With these instances [x ← m; k] and
    ['(x, y) ← m; k] are available for [go]. *)
#[global] Instance go_bind : MBind go := fun A B k m =>
  match m with
  | Done a => k a
  | Panic => Panic
  end.

#[global] Instance go_ret : MRet go := fun A a => Done a.

(** Running a sequence whose first step is known. *)
Ltac run_bind := unfold mbind, go_bind; cbv beta iota.

(** ** The store of map objects *)

Abbreviation loc := positive (only parsing).

(** A value of type [map[string]string]: [None] is the nil map. *)
Abbreviation mapref := (option loc) (only parsing).

(** The store: the map object living at each address. *)
Abbreviation heap := (gmap loc (gmap string string)) (only parsing).

(** Reading a map: a nil map reads as the empty map (and so does an address
    the store holds nothing at). *)
Definition contents (h : heap) (r : mapref) : gmap string string :=
  match r with
  | None => ∅
  | Some l => default ∅ (h !! l)
  end.

(** [len(m)] *)
Definition map_len (h : heap) (r : mapref) : nat := size (contents h r).

(** [a[k] = v]: panics on a nil map, writes in place otherwise. *)
Definition map_assign (a : mapref) (k v : string) (h : heap) : go heap :=
  match a with
  | None => Panic
  | Some l => Done (<[l := <[k := v]> (contents h a)]> h)
  end.

(** ** Merge utilities *)

(** [listHas] (main.go:508) *)
Fixpoint listHas (lst : list string) (value : string) : bool :=
  match lst with
  | [] => false
  | v :: rest => if decide (v = value) then true else listHas rest value
  end.

(** The loop of [appendLists]: [acc] is the local slice [list] being built,
    [a] the list membership is tested against. *)
Fixpoint appendLists_loop (a : list string) (acc : list string) (b : list string)
  : list string :=
  match b with
  | [] => acc
  | v :: rest =>
      if negb (listHas a v)
      then appendLists_loop a (acc ++ [v]) rest
      else appendLists_loop a acc rest
  end.

(** [appendLists] (main.go:302) *)
Definition appendLists (a b : list string) : list string :=
  appendLists_loop a ([] ++ a) b.

(** The loop of [appendStringMaps] over the entries of [b], in the order the
    range statement delivers them. *)
Fixpoint appendStringMaps_loop (a : mapref) (entries : list (string * string))
    (h : heap) : go heap :=
  match entries with
  | [] => Done h
  | (k, v) :: rest =>
      h' ← map_assign a k v h;
      appendStringMaps_loop a rest h'
  end.

(** [appendStringMaps] (main.go:316): the entries of [b] are written into the
    map object [a] itself, and [a] is returned.  Go leaves the order of a
    range over a map open; [map_to_list] is one order, and the map object
    ends with the same entries for every order
    ([appendStringMaps_loop_allocated]). *)
Definition appendStringMaps (a b : mapref) (h : heap) : go (mapref * heap) :=
  h' ← appendStringMaps_loop a (map_to_list (contents h b)) h;
  Done (a, h').

(** ** CRD documents

    [extv1.CustomResourceDefinition] and its schema types are declared in
    [k8s.io/apiextensions-apiserver/pkg/apis/apiextensions/v1], which main.go
    imports; only the fields the detector reads are kept.  A field of pointer
    type ([Items], [AdditionalProperties], the [Schema] fields and
    [OpenAPIV3Schema]) is an [option] with [None] for the nil pointer; a
    [Properties] map is only ever read, so it is its contents (a nil map
    reads as the empty one). *)

Set Warnings "-register-all".

Inductive JSONSchemaProps : Type :=
  | MkJSONSchemaProps
      (type_ : string)
      (items : option JSONSchemaPropsOrArray)
      (properties : gmap string JSONSchemaProps)
      (additionalProperties : option JSONSchemaPropsOrBool)
with JSONSchemaPropsOrArray : Type :=
  | MkJSONSchemaPropsOrArray
      (schema : option JSONSchemaProps)
      (jsonSchemas : list JSONSchemaProps)
with JSONSchemaPropsOrBool : Type :=
  | MkJSONSchemaPropsOrBool
      (allows : bool)
      (schema : option JSONSchemaProps).

Definition Type_ (p : JSONSchemaProps) : string :=
  match p with MkJSONSchemaProps t _ _ _ => t end.
Definition Items (p : JSONSchemaProps) : option JSONSchemaPropsOrArray :=
  match p with MkJSONSchemaProps _ i _ _ => i end.
Definition Properties (p : JSONSchemaProps) : gmap string JSONSchemaProps :=
  match p with MkJSONSchemaProps _ _ ps _ => ps end.
Definition AdditionalProperties (p : JSONSchemaProps) : option JSONSchemaPropsOrBool :=
  match p with MkJSONSchemaProps _ _ _ a => a end.
Definition Items_Schema (i : JSONSchemaPropsOrArray) : option JSONSchemaProps :=
  match i with MkJSONSchemaPropsOrArray s _ => s end.
Definition AdditionalProperties_Schema (a : JSONSchemaPropsOrBool) : option JSONSchemaProps :=
  match a with MkJSONSchemaPropsOrBool _ s => s end.

Record CustomResourceValidation : Type := {
  OpenAPIV3Schema : option JSONSchemaProps
}.

Record CustomResourceDefinitionVersion : Type := {
  Version_Name : string;
  Version_Schema : option CustomResourceValidation
}.

Record CustomResourceDefinitionSpec : Type := {
  Versions : list CustomResourceDefinitionVersion
}.

Record CustomResourceDefinition : Type := {
  Spec : CustomResourceDefinitionSpec
}.

(** Dereferencing a pointer: a nil pointer panics. *)
Definition deref {A : Type} (p : option A) : go A :=
  match p with
  | Some a => Done a
  | None => Panic
  end.

(** ** Tag-schema detector *)

(** What [tryToGetTags] does at one version whose name matched
    (main.go:261-272): [Some] when it returns from inside the loop, [None]
    when the loop goes on to the next version. *)
Definition tryToGetTags_at (schemaVersion : CustomResourceDefinitionVersion)
  : go (option (JSONSchemaProps * string)) :=
  validation ← deref (Version_Schema schemaVersion);
  root ← deref (OpenAPIV3Schema validation);
  match Properties root !! "spec" with
  | Some specs =>
      match Properties specs !! "forProvider" with
      | Some forProvider =>
          match Properties forProvider !! "tags" with
          | Some tags => Done (Some (tags, "tag"))
          | None =>
              match Properties forProvider !! "tagging" with
              | Some tagging =>
                  match Properties tagging !! "tagSet" with
                  | Some tagSet => Done (Some (tagSet, "tagSet"))
                  | None => Done None
                  end
              | None => Done None
              end
          end
      | None => Done None
      end
  | None => Done None
  end.

(** The range loop of [tryToGetTags] over [crd.Spec.Versions]. *)
Fixpoint tryToGetTags_loop (versions : list CustomResourceDefinitionVersion)
    (version : string) : go (option (JSONSchemaProps * string)) :=
  match versions with
  | [] => Done None
  | schemaVersion :: rest =>
      if decide (Version_Name schemaVersion = version) then
        found ← tryToGetTags_at schemaVersion;
        match found with
        | Some r => Done (Some r)
        | None => tryToGetTags_loop rest version
        end
      else tryToGetTags_loop rest version
  end.

(** [tryToGetTags] (main.go:257): [Done None] is the error return
    ("Could not find tags"), [Done (Some (tags, tagProperty))] the node found. *)
Definition tryToGetTags (crd : CustomResourceDefinition) (version : string)
  : go (option (JSONSchemaProps * string)) :=
  if decide (0 < length (Versions (Spec crd)))
  then tryToGetTags_loop (Versions (Spec crd)) version
  else Done None.

(** The [if tags.Type == "array"] block of [checkTagType] (main.go:229-246):
    [Some] when it returns, [None] when control falls through. *)
Definition checkTagType_array (tags : JSONSchemaProps) (tagProperty : string)
  : go (option (string * string)) :=
  if decide (Type_ tags = "array") then
    its ← deref (Items tags);
    itemSchema ← deref (Items_Schema its);
    let subType := Type_ itemSchema in
    if decide (subType = "object") then
      let properties := Properties itemSchema in
      let ok := bool_decide (is_Some (properties !! "key")) in
      let ok2 := bool_decide (is_Some (properties !! "value")) in
      if ok && ok2 then Done (Some ("keyValueArray", tagProperty))
      else
        let ok3 := bool_decide (is_Some (properties !! "tagKey")) in
        let ok4 := bool_decide (is_Some (properties !! "tagValue")) in
        if ok3 && ok4 then Done (Some ("tagKeyValueArray", tagProperty))
        else Done None
    else Done None
  else Done None.

(** The [if tags.Type == "object"] block (main.go:247-251). *)
Definition checkTagType_object (tags : JSONSchemaProps) (tagProperty : string)
  : go (option (string * string)) :=
  if decide (Type_ tags = "object") then
    ap ← deref (AdditionalProperties tags);
    apSchema ← deref (AdditionalProperties_Schema ap);
    if decide (Type_ apSchema = "string")
    then Done (Some ("stringObject", tagProperty))
    else Done None
  else Done None.

(** [checkTagType] (main.go:224): the pair (tagType, tagProperty); the
    unknown result is the pair of empty strings. *)
Definition checkTagType (crd : CustomResourceDefinition) (version : string)
  : go (string * string) :=
  found ← tryToGetTags crd version;
  match found with
  | None => Done ("", "")
  | Some (tags, tagProperty) =>
      r ← checkTagType_array tags tagProperty;
      match r with
      | Some result => Done result
      | None =>
          r2 ← checkTagType_object tags tagProperty;
          match r2 with
          | Some result => Done result
          | None => Done ("", "")
          end
      end
  end.

(** ** Configuration types *)

(** [globalLabels] (main.go:32) *)
Definition globalLabels : list string :=
  ["crossplane.io/claim-name"; "crossplane.io/claim-namespace";
   "crossplane.io/composite"; "external-name"].

Record TagConfig : Type := {
  Tag_FromLabels : list string;
  Tag_Common : mapref
}.

Record LabelConfig : Type := {
  Label_FromCRD : list string;
  Label_Common : mapref
}.

Record GeneratorConfig : Type := {
  CompositionIdentifier : string;
  Global_Tags : TagConfig;
  Global_Labels : LabelConfig
}.

Definition GlobalHandlingType := string.
Definition replaceGlobal : GlobalHandlingType := "replace".
Definition appendGlobal : GlobalHandlingType := "append".

Record GlobalHandlingTags : Type := {
  HandleTag_FromLabels : GlobalHandlingType;
  HandleTag_Common : GlobalHandlingType
}.

Record GlobalHandlingLabels : Type := {
  HandleLabel_FromCRD : GlobalHandlingType;
  HandleLabel_Common : GlobalHandlingType
}.

Record LocalTagConfig : Type := {
  LocalTag_TagConfig : TagConfig;
  LocalTag_GlobalHandling : GlobalHandlingTags
}.

Record LocalLabelConfig : Type := {
  LocalLabel_LabelConfig : LabelConfig;
  LocalLabel_GlobalHandling : GlobalHandlingLabels
}.

(** [Generator] (main.go:104), with the fields the resolver, the validation
    and the output loop read or write. *)
Record Generator : Type := {
  Name : string;
  Version : string;
  Ignore : bool;
  Tags : LocalTagConfig;
  Labels : LocalLabelConfig;
  configPath : string;
  tagType : string;
  tagProperty : string
}.

(** The four governed sub-fields of a local configuration. *)
Definition Labels_FromCRD (g : Generator) : list string :=
  Label_FromCRD (LocalLabel_LabelConfig (Labels g)).
Definition Labels_Common (g : Generator) : mapref :=
  Label_Common (LocalLabel_LabelConfig (Labels g)).
Definition Tags_FromLabels (g : Generator) : list string :=
  Tag_FromLabels (LocalTag_TagConfig (Tags g)).
Definition Tags_Common (g : Generator) : mapref :=
  Tag_Common (LocalTag_TagConfig (Tags g)).

(** Assignments to the four sub-fields of [g]. *)
Definition set_Labels (g : Generator) (l : LabelConfig) : Generator :=
  {| Name := Name g; Version := Version g; Ignore := Ignore g;
     Tags := Tags g;
     Labels := {| LocalLabel_LabelConfig := l;
                  LocalLabel_GlobalHandling := LocalLabel_GlobalHandling (Labels g) |};
     configPath := configPath g; tagType := tagType g;
     tagProperty := tagProperty g |}.

Definition set_Tags (g : Generator) (t : TagConfig) : Generator :=
  {| Name := Name g; Version := Version g; Ignore := Ignore g;
     Tags := {| LocalTag_TagConfig := t;
                LocalTag_GlobalHandling := LocalTag_GlobalHandling (Tags g) |};
     Labels := Labels g;
     configPath := configPath g; tagType := tagType g;
     tagProperty := tagProperty g |}.

Definition set_Labels_FromCRD (g : Generator) (v : list string) : Generator :=
  set_Labels g {| Label_FromCRD := v; Label_Common := Labels_Common g |}.
Definition set_Labels_Common (g : Generator) (m : mapref) : Generator :=
  set_Labels g {| Label_FromCRD := Labels_FromCRD g; Label_Common := m |}.
Definition set_Tags_FromLabels (g : Generator) (v : list string) : Generator :=
  set_Tags g {| Tag_FromLabels := v; Tag_Common := Tags_Common g |}.
Definition set_Tags_Common (g : Generator) (m : mapref) : Generator :=
  set_Tags g {| Tag_FromLabels := Tags_FromLabels g; Tag_Common := m |}.

(** ** Configuration resolver *)

(** The four blocks of [UpdateConfig], in source order. *)

(** main.go:444-448 *)
Definition UpdateConfig_Labels_FromCRD (g : Generator) (gc : GeneratorConfig)
  : Generator :=
  if decide (HandleLabel_FromCRD (LocalLabel_GlobalHandling (Labels g)) = appendGlobal)
  then set_Labels_FromCRD g
         (appendLists (Label_FromCRD (Global_Labels gc)) (Labels_FromCRD g))
  else if bool_decide (length (Labels_FromCRD g) = 0)
          && negb (bool_decide (HandleLabel_FromCRD (LocalLabel_GlobalHandling (Labels g))
                                = replaceGlobal))
  then set_Labels_FromCRD g (Label_FromCRD (Global_Labels gc))
  else g.

(** main.go:449-453 *)
Definition UpdateConfig_Labels_Common (g : Generator) (gc : GeneratorConfig)
    (h : heap) : go (Generator * heap) :=
  if decide (HandleLabel_Common (LocalLabel_GlobalHandling (Labels g)) = appendGlobal)
  then
    '(m, h') ← appendStringMaps (Label_Common (Global_Labels gc)) (Labels_Common g) h;
    Done (set_Labels_Common g m, h')
  else if bool_decide (map_len h (Labels_Common g) = 0)
          && negb (bool_decide (HandleLabel_Common (LocalLabel_GlobalHandling (Labels g))
                                = replaceGlobal))
  then Done (set_Labels_Common g (Label_Common (Global_Labels gc)), h)
  else Done (g, h).

(** main.go:454-458 *)
Definition UpdateConfig_Tags_FromLabels (g : Generator) (gc : GeneratorConfig)
  : Generator :=
  if decide (HandleTag_FromLabels (LocalTag_GlobalHandling (Tags g)) = appendGlobal)
  then set_Tags_FromLabels g
         (appendLists (Tag_FromLabels (Global_Tags gc)) (Tags_FromLabels g))
  else if bool_decide (length (Tags_FromLabels g) = 0)
          && negb (bool_decide (HandleTag_FromLabels (LocalTag_GlobalHandling (Tags g))
                                = replaceGlobal))
  then set_Tags_FromLabels g (Tag_FromLabels (Global_Tags gc))
  else g.

(** main.go:459-463 *)
Definition UpdateConfig_Tags_Common (g : Generator) (gc : GeneratorConfig)
    (h : heap) : go (Generator * heap) :=
  if decide (HandleTag_Common (LocalTag_GlobalHandling (Tags g)) = appendGlobal)
  then
    '(m, h') ← appendStringMaps (Tag_Common (Global_Tags gc)) (Tags_Common g) h;
    Done (set_Tags_Common g m, h')
  else if bool_decide (map_len h (Tags_Common g) = 0)
          && negb (bool_decide (HandleTag_Common (LocalTag_GlobalHandling (Tags g))
                                = replaceGlobal))
  then Done (set_Tags_Common g (Tag_Common (Global_Tags gc)), h)
  else Done (g, h).

(** [UpdateConfig] (main.go:442).  The generator is updated field by field;
    the global configuration record is never assigned to, but the map objects
    its fields point to live in the store. *)
Definition UpdateConfig (g : Generator) (generatorConfig : option GeneratorConfig)
    (h : heap) : go (Generator * heap) :=
  match generatorConfig with
  | None => Done (g, h)
  | Some gc =>
      let g1 := UpdateConfig_Labels_FromCRD g gc in
      '(g2, h2) ← UpdateConfig_Labels_Common g1 gc h;
      let g3 := UpdateConfig_Tags_FromLabels g2 gc in
      UpdateConfig_Tags_Common g3 gc h2
  end.

(** ** Validation *)

(** The test of main.go:432 on one entry [t] of [tags.fromLabels]: true when
    [t] is appended to [listOfErrFields]. *)
Definition CheckConfig_rejects (commonLables : gmap string string)
    (fromCRD : list string) (t : string) : bool :=
  negb (bool_decide (is_Some (commonLables !! t)))
  && negb (listHas fromCRD t)
  && negb (listHas globalLabels t).

(** The range loop of [CheckConfig] over [g.Tags.FromLabels]. *)
Fixpoint CheckConfig_loop (commonLables : gmap string string)
    (fromCRD : list string) (listOfErrFields : list string)
    (ts : list string) : list string :=
  match ts with
  | [] => listOfErrFields
  | t :: rest =>
      if CheckConfig_rejects commonLables fromCRD t
      then CheckConfig_loop commonLables fromCRD (listOfErrFields ++ [t]) rest
      else CheckConfig_loop commonLables fromCRD listOfErrFields rest
  end.

Definition CheckConfig_message : string :=
  "Not all tags.fromLables entries exist in labels.fromCRD or global generator config or globalLabels: ".

Section Validation.
(** [json.Marshal] on a [[]string] ([encoding/json]), as a string. *)
Variable json_Marshal : list string -> string.

(** [getJsonStringFromList] (main.go:325) *)
Definition getJsonStringFromList (lst : list string) : string :=
  if decide (0 < length lst) then json_Marshal lst else "[]".

(** [CheckConfig] (main.go:427): [None] is the nil error, [Some msg] the
    error with message [msg]. *)
Definition CheckConfig (g : Generator) (generatorConfig : option GeneratorConfig)
    (h : heap) : go (option string) :=
  gc ← deref generatorConfig;
  let commonLables := contents h (Label_Common (Global_Labels gc)) in
  let listOfErrFields :=
    CheckConfig_loop commonLables (Labels_FromCRD g) [] (Tags_FromLabels g) in
  if decide (0 < length listOfErrFields)
  then Done (Some (CheckConfig_message +:+ getJsonStringFromList listOfErrFields))
  else Done None.
End Validation.

(** ** Output loop of the generation executor *)

Definition newline : string := String (Ascii.ascii_of_nat 10) EmptyString.

(** [fmt.Sprintf(autogenHeader, now)] (main.go:24, 389), [now] being the
    formatted time of the run. *)
Definition autogenHeader (now : string) : string :=
  "## WARNING: This file was autogenerated!" +:+ newline +:+
  "## Manual modifications will be overwritten" +:+ newline +:+
  "## unless ignore: true is set in generate.yaml!" +:+ newline +:+
  "## Last Modification: " +:+ now +:+ "." +:+ newline +:+
  newline.

Section Output.
(** Decoded documents ([interface{}] values) and the library functions the
    loop calls on them: [yaml.Marshal], [yaml.Unmarshal] into a fresh
    [map[string]interface{}], [cmp.Equal], and [filepath.Join]. *)
Variable content : Type.
Variable yaml_Marshal : content -> string.
Variable yaml_Unmarshal : string -> content.
Variable cmp_Equal : content -> content -> bool.
Variable filepath_Join : string -> string -> string.

(** main.go:384-387 *)
Definition Exec_outPath (g : Generator) (outputPath : string) : string :=
  if decide (outputPath <> "") then outputPath else configPath g.

(** main.go:398 *)
Definition Exec_fp (outPath fn : string) : string :=
  filepath_Join outPath fn +:+ ".yaml".

(** One iteration of the loop of main.go:393-421 on the files present
    (path to content). *)
Definition Exec_write (outPath header : string) (fn : string) (fc : content)
    (files : gmap string string) : gmap string string :=
  let yo := yaml_Marshal fc in
  let fp := Exec_fp outPath fn in
  match files !! fp with
  | Some yi =>
      let ec := yaml_Unmarshal yi in
      if cmp_Equal fc ec then files
      else <[fp := header +:+ yo]> files
  | None => <[fp := header +:+ yo]> files
  end.

(** The file for key [fn] is there and what it parses to is equal to the
    generated document [fc]. *)
Definition Exec_unchanged (outPath : string) (fn : string) (fc : content)
    (files : gmap string string) : bool :=
  match files !! Exec_fp outPath fn with
  | Some yi => cmp_Equal fc (yaml_Unmarshal yi)
  | None => false
  end.

(** The loop over the entries of [jso], in the order the range statement
    delivers them. *)
Fixpoint Exec_write_loop (outPath header : string)
    (jso : list (string * content)) (files : gmap string string)
  : gmap string string :=
  match jso with
  | [] => files
  | (fn, fc) :: rest =>
      Exec_write_loop outPath header rest (Exec_write outPath header fn fc files)
  end.

(** [Exec] from main.go:384 on: the files after the engine's output [jso]
    has been written. *)
Definition Exec_output (g : Generator) (outputPath now : string)
    (jso : list (string * content)) (files : gmap string string)
  : gmap string string :=
  Exec_write_loop (Exec_outPath g outputPath) (autogenHeader now) jso files.
End Output.

(** ** The resolution policy as the specification words it *)

(** A list sub-field: append merges with the list utility; replace, or
    explicit local entries, keeps the local value; otherwise the global value
    is inherited. *)
Definition policy_list (handling : GlobalHandlingType) (own glob : list string)
  : list string :=
  if decide (handling = appendGlobal) then appendLists glob own
  else if decide (handling = replaceGlobal \/ own <> []) then own
  else glob.

(** A map sub-field, by the entries it resolves to: the same three cases, the
    merge being the map utility run on the two maps. *)
Definition policy_map (handling : GlobalHandlingType) (own glob : mapref)
    (h : heap) : go (gmap string string) :=
  if decide (handling = appendGlobal) then
    '(m, h') ← appendStringMaps glob own h; Done (contents h' m)
  else if decide (handling = replaceGlobal \/ contents h own <> ∅)
  then Done (contents h own)
  else Done (contents h glob).


(** Two map values do not share a map object. *)
Definition apart (r1 r2 : mapref) : Prop :=
  match r1, r2 with
  | Some l1, Some l2 => l1 <> l2
  | _, _ => True
  end.

(** The label maps and the tag maps of a local and a global configuration
    are different objects, as they are when each configuration was decoded
    from its own file. *)
Definition separate (g : Generator) (gc : GeneratorConfig) : Prop :=
  apart (Label_Common (Global_Labels gc)) (Tag_Common (Global_Tags gc)) /\
  apart (Label_Common (Global_Labels gc)) (Tags_Common g) /\
  apart (Labels_Common g) (Tag_Common (Global_Tags gc)).

(** Number of occurrences of [v] in a list. *)
Definition occurrences (v : string) (l : list string) : nat :=
  length (filter (fun x => x = v) l).

(** ** Sample configurations

    A global configuration with label map at address 1 and tag map at
    address 3, and a local configuration with label map at address 2 that
    appends to both label sub-fields, replaces [tags.fromLabels] and leaves
    [tags.common] to the default. *)

Definition sample_heap : heap :=
  <[1%positive := {["team" := "x"]}]>
    (<[2%positive := {["app" := "y"]}]>
       (<[3%positive := {["owner" := "ops"]}]> ∅)).

Definition sample_global : GeneratorConfig :=
  {| CompositionIdentifier := "example.org/composite";
     Global_Tags := {| Tag_FromLabels := ["team"]; Tag_Common := Some 3%positive |};
     Global_Labels := {| Label_FromCRD := ["a"; "b"]; Label_Common := Some 1%positive |} |}.

Definition sample_local : Generator :=
  {| Name := "bucket"; Version := "v1beta1"; Ignore := false;
     Tags := {| LocalTag_TagConfig := {| Tag_FromLabels := []; Tag_Common := None |};
                LocalTag_GlobalHandling :=
                  {| HandleTag_FromLabels := replaceGlobal; HandleTag_Common := "" |} |};
     Labels := {| LocalLabel_LabelConfig :=
                    {| Label_FromCRD := ["a"]; Label_Common := Some 2%positive |};
                  LocalLabel_GlobalHandling :=
                    {| HandleLabel_FromCRD := appendGlobal;
                       HandleLabel_Common := appendGlobal |} |};
     configPath := "apis/bucket"; tagType := "keyValueArray"; tagProperty := "tag" |}.

(** A global configuration that has no [labels.common] (the field is absent
    from the file, so the map is nil). *)
Definition sample_global_no_common : GeneratorConfig :=
  {| CompositionIdentifier := "example.org/composite";
     Global_Tags := {| Tag_FromLabels := []; Tag_Common := None |};
     Global_Labels := {| Label_FromCRD := []; Label_Common := None |} |}.

(** A second local configuration, with nothing of its own under labels and
    tags and no policy. *)
Definition sample_local_plain : Generator :=
  {| Name := "queue"; Version := "v1beta1"; Ignore := false;
     Tags := {| LocalTag_TagConfig := {| Tag_FromLabels := []; Tag_Common := None |};
                LocalTag_GlobalHandling :=
                  {| HandleTag_FromLabels := ""; HandleTag_Common := "" |} |};
     Labels := {| LocalLabel_LabelConfig := {| Label_FromCRD := []; Label_Common := None |};
                  LocalLabel_GlobalHandling :=
                    {| HandleLabel_FromCRD := ""; HandleLabel_Common := "" |} |};
     configPath := "apis/queue"; tagType := "keyValueArray"; tagProperty := "tag" |}.

(** A rendering of a list of strings as a JSON array, for lists whose
    strings need no escaping. *)
Definition quote : string := String (Ascii.ascii_of_nat 34) EmptyString.

Definition sample_json_Marshal (l : list string) : string :=
  "[" +:+ String.concat "," (map (fun s => quote +:+ s +:+ quote) l) +:+ "]".

(** A local configuration that keeps its own [labels.common] (policy
    replace) and takes the tag "app" from a label. *)
Definition sample_local_own_labels : Generator :=
  {| Name := "topic"; Version := "v1beta1"; Ignore := false;
     Tags := {| LocalTag_TagConfig := {| Tag_FromLabels := ["app"; "team"]; Tag_Common := None |};
                LocalTag_GlobalHandling :=
                  {| HandleTag_FromLabels := ""; HandleTag_Common := "" |} |};
     Labels := {| LocalLabel_LabelConfig :=
                    {| Label_FromCRD := []; Label_Common := Some 2%positive |};
                  LocalLabel_GlobalHandling :=
                    {| HandleLabel_FromCRD := ""; HandleLabel_Common := replaceGlobal |} |};
     configPath := "apis/topic"; tagType := "keyValueArray"; tagProperty := "tag" |}.

(** ** Sample CRD documents *)

Definition schema_of_type (t : string) : JSONSchemaProps :=
  MkJSONSchemaProps t None ∅ None.

Definition schema_object (props : gmap string JSONSchemaProps) : JSONSchemaProps :=
  MkJSONSchemaProps "object" None props None.

(** A CRD with the one version "v1beta1" whose [spec.forProvider] has the
    given properties. *)
Definition crd_forProvider (props : gmap string JSONSchemaProps)
  : CustomResourceDefinition :=
  {| Spec := {| Versions :=
       [ {| Version_Name := "v1beta1";
            Version_Schema := Some {| OpenAPIV3Schema := Some
              (schema_object {[ "spec" :=
                 schema_object {[ "forProvider" := schema_object props ]} ]}) |} |} ] |} |}.

(** [tags: {type: array, items: {type: object, properties: {key, value}}}] *)
Definition tags_key_value : JSONSchemaProps :=
  MkJSONSchemaProps "array"
    (Some (MkJSONSchemaPropsOrArray
             (Some (schema_object (<["key" := schema_of_type "string"]>
                                     {["value" := schema_of_type "string"]})))
             []))
    ∅ None.

(** [tags: {type: array, items: {type: object, properties: {tagKey, tagValue}}}] *)
Definition tags_tagKey_tagValue : JSONSchemaProps :=
  MkJSONSchemaProps "array"
    (Some (MkJSONSchemaPropsOrArray
             (Some (schema_object (<["tagKey" := schema_of_type "string"]>
                                     {["tagValue" := schema_of_type "string"]})))
             []))
    ∅ None.

(** [tags: {type: object, additionalProperties: {type: string}}] *)
Definition tags_string_object : JSONSchemaProps :=
  MkJSONSchemaProps "object" None ∅
    (Some (MkJSONSchemaPropsOrBool true (Some (schema_of_type "string")))).

(** [tags: {type: array}], no [items]. *)
Definition tags_array_without_items : JSONSchemaProps :=
  MkJSONSchemaProps "array" None ∅ None.

(** [tags: {type: array, items: [{type: string}]}]: the items are given in
    the array form, so [Items.Schema] is nil. *)
Definition tags_array_items_list : JSONSchemaProps :=
  MkJSONSchemaProps "array"
    (Some (MkJSONSchemaPropsOrArray None [schema_of_type "string"])) ∅ None.

(** [tags: {type: object, properties: {owner: {type: string}}}], no
    [additionalProperties]. *)
Definition tags_structured_object : JSONSchemaProps :=
  schema_object {["owner" := schema_of_type "string"]}.

(** [tags: {type: object, additionalProperties: true}]: the boolean form, so
    [AdditionalProperties.Schema] is nil. *)
Definition tags_object_any : JSONSchemaProps :=
  MkJSONSchemaProps "object" None ∅ (Some (MkJSONSchemaPropsOrBool true None)).

(** A CRD whose version "v1beta1" carries no schema. *)
Definition crd_without_schema : CustomResourceDefinition :=
  {| Spec := {| Versions :=
       [ {| Version_Name := "v1beta1"; Version_Schema := None |} ] |} |}.

(** ** Sample output codec

    Documents of one line of text: a document is written as it is, a file
    parses to its last line (the header lines before it are dropped), and two
    documents are equal when they are the same text. *)

Fixpoint last_line_from (acc s : string) : string :=
  match s with
  | EmptyString => acc
  | String c rest =>
      if Ascii.eqb c (Ascii.ascii_of_nat 10) then last_line_from "" rest
      else last_line_from (acc +:+ String c EmptyString) rest
  end.

Definition sample_yaml_Marshal (c : string) : string := c.
Definition sample_yaml_Unmarshal (s : string) : string := last_line_from "" s.
Definition sample_cmp_Equal (a b : string) : bool := String.eqb a b.
Definition sample_filepath_Join (dir name : string) : string := dir +:+ "/" +:+ name.

Definition sample_jso : list (string * string) :=
  [("bucket", "kind: Bucket"); ("queue", "kind: Queue")].

(** ** Validation of the global configuration *)

Definition checkConfig_message : string :=
  "Not all tags.fromLables entries exist in labels.fromCRD or labels.Common or in globalLabels: ".

(** [checkConfig] (main.go:520): the loop tests each entry of the global
    [tags.fromLabels] with the condition of [CheckConfig], against the global
    [labels.fromCRD]; a nil configuration is accepted.  [None] is the nil
    error. *)
Definition checkConfig (json_Marshal : list string -> string)
    (generatorConfig : option GeneratorConfig) (h : heap) : option string :=
  match generatorConfig with
  | Some gc =>
      let commonLables := contents h (Label_Common (Global_Labels gc)) in
      let listOfErrFields :=
        CheckConfig_loop commonLables (Label_FromCRD (Global_Labels gc)) []
          (Tag_FromLabels (Global_Tags gc)) in
      if decide (0 < length listOfErrFields)
      then Some (checkConfig_message
                 +:+ getJsonStringFromList json_Marshal listOfErrFields)
      else None
  | None => None
  end.

(** ** Choice of the CRD source in [LoadCRD] *)



Record CrdConfig : Type := {
  CRD_File : string;
  CRD_Version : string
}.




(** main.go:208-219: once the document is decoded ([r] is its JSON text,
    [crd2] what it decodes to), the version is chosen
    ([provider.crd.version], or the generator's own version when that is
    empty), the tag schema is detected, the three assignments
    [g.crdSource = string(r)], [g.tagType = tagType] and
    [g.tagProperty = tagProperty] are made, and the nil error is returned.
    The record [Generator] above does not carry the field [crdSource]: its
    new value is returned next to the generator. *)
Definition LoadCRD_detect (g : Generator) (crd : CrdConfig)
    (crd2 : CustomResourceDefinition) (r : string) : go (Generator * string) :=
  let version := if decide (CRD_Version crd = "") then Version g else CRD_Version crd in
  '(tagType', tagProperty') ← checkTagType crd2 version;
  let crdSource' := r in
  Done ({| Name := Name g; Version := Version g; Ignore := Ignore g;
           Tags := Tags g; Labels := Labels g; configPath := configPath g;
           tagType := tagType'; tagProperty := tagProperty' |},
        crdSource').

(** ** Sample data for the properties of the remaining code *)

(** A global configuration whose [tags.fromLabels] are all known: "team" is
    a key of [labels.common] (address 1 of [sample_heap]) and "a" is in
    [labels.fromCRD]. *)
Definition sample_global_valid : GeneratorConfig :=
  {| CompositionIdentifier := "example.org/composite";
     Global_Tags := {| Tag_FromLabels := ["team"; "a"]; Tag_Common := Some 3%positive |};
     Global_Labels := {| Label_FromCRD := ["a"; "b"]; Label_Common := Some 1%positive |} |}.




(** A CRD with two entries named "v1beta1": the first has a schema without
    tags, the second one with [tags]. *)
Definition crd_two_entries : CustomResourceDefinition :=
  {| Spec := {| Versions :=
       Versions (Spec (crd_forProvider ∅))
       ++ Versions (Spec (crd_forProvider {["tags" := tags_string_object]})) |} |}.

(** ** Vocabulary for the properties of the resolver *)

(** Everything of a generator that is not one of the four governed
    sub-fields: the policy words and the remaining fields. *)
Definition settings (g : Generator)
  : string * string * bool * string * string * string
    * GlobalHandlingLabels * GlobalHandlingTags :=
  (Name g, Version g, Ignore g, configPath g, tagType g, tagProperty g,
   LocalLabel_GlobalHandling (Labels g), LocalTag_GlobalHandling (Tags g)).

(** The map value a map sub-field holds after resolution. *)
Definition policy_ref (handling : GlobalHandlingType) (own glob : mapref)
    (h : heap) : mapref :=
  if decide (handling = appendGlobal) then glob
  else if decide (handling = replaceGlobal \/ contents h own <> ∅) then own
  else glob.

(** A map sub-field under append whose global map is nil while the local one
    has entries. *)
Definition nil_write (handling : GlobalHandlingType) (own glob : mapref)
    (h : heap) : Prop :=
  handling = appendGlobal /\ glob = None /\ contents h own <> ∅.

(** ** Sample documents that are objects or lists

    A second sample codec, for documents that are either an object with
    string fields or a list of strings.  An object is written one field per
    line as [key: value], a list one item per line as [- item].  Reading a
    file decodes it into an object, as [yaml.Unmarshal] into a
    [map[string]interface{}] does: lines starting with [#] and empty lines are
    passed over, every other line must be a field, and a file that is not an
    object leaves the empty object.  Two documents are equal when they are of
    the same kind with the same content. *)

Inductive sample_doc : Type :=
  | DocObject (fields : list (string * string))
  | DocList (items : list string).

Definition sample_doc_Marshal (d : sample_doc) : string :=
  match d with
  | DocObject fields =>
      String.concat "" (map (fun kv => kv.1 +:+ ": " +:+ kv.2 +:+ newline) fields)
  | DocList items =>
      String.concat "" (map (fun i => "- " +:+ i +:+ newline) items)
  end.

(** The lines of a text. *)
Fixpoint lines_from (acc s : string) : list string :=
  match s with
  | EmptyString => if decide (acc = "") then [] else [acc]
  | String c rest =>
      if Ascii.eqb c (Ascii.ascii_of_nat 10) then acc :: lines_from "" rest
      else lines_from (acc +:+ String c EmptyString) rest
  end.

(** A line [key: value] split at its first colon. *)
Fixpoint field_from (acc s : string) : option (string * string) :=
  match s with
  | EmptyString => None
  | String c rest =>
      if Ascii.eqb c (Ascii.ascii_of_nat 58) then
        match rest with
        | String sp value =>
            if Ascii.eqb sp (Ascii.ascii_of_nat 32) then Some (acc, value) else None
        | EmptyString => None
        end
      else field_from (acc +:+ String c EmptyString) rest
  end.

Definition is_comment (line : string) : bool :=
  match line with
  | EmptyString => true
  | String c _ => Ascii.eqb c (Ascii.ascii_of_nat 35)
  end.

Fixpoint fields_of_lines (ls : list string) : option (list (string * string)) :=
  match ls with
  | [] => Some []
  | line :: rest =>
      if is_comment line then fields_of_lines rest
      else
        match field_from "" line, fields_of_lines rest with
        | Some kv, Some kvs => Some (kv :: kvs)
        | _, _ => None
        end
  end.

Definition sample_doc_Unmarshal (s : string) : sample_doc :=
  match fields_of_lines (lines_from "" s) with
  | Some fields => DocObject fields
  | None => DocObject []
  end.

Definition sample_doc_Equal (a b : sample_doc) : bool :=
  match a, b with
  | DocObject f, DocObject f' => bool_decide (f = f')
  | DocList i, DocList i' => bool_decide (i = i')
  | _, _ => false
  end.

(** [filepath.Join] on a directory and a name without separators, where a
    name may come with a leading [./], which [Join] cleans away. *)
Definition sample_clean_Join (dir name : string) : string :=
  match name with
  | String d (String sl rest) =>
      if Ascii.eqb d (Ascii.ascii_of_nat 46) && Ascii.eqb sl (Ascii.ascii_of_nat 47)
      then dir +:+ "/" +:+ rest
      else dir +:+ "/" +:+ name
  | _ => dir +:+ "/" +:+ name
  end.

(** * Properties *)

Lemma listHas_true (l : list string) (v : string) :
  listHas l v = true <-> v ∈ l.
Proof.
  induction l as [|x l IH]; simpl.
  - split; [discriminate | intros H; inversion H].
  - case_decide as Hx.
    + subst. split; [intros _; left | done].
    + rewrite IH. split; [intros H; by right |].
      intros H. inversion H; subst; [congruence | done].
Qed.

Lemma appendLists_loop_filter (a acc b : list string) :
  appendLists_loop a acc b = acc ++ filter (fun v => v ∉ a) b.
Proof.
  revert acc. induction b as [|v b IH]; intros acc; simpl.
  - by rewrite app_nil_r.
  - destruct (listHas a v) eqn:E; simpl.
    + rewrite IH. rewrite filter_cons_False; [done |].
      intros Hn. apply Hn. by apply listHas_true.
    + rewrite IH. rewrite filter_cons_True.
      * by rewrite <- app_assoc.
      * intros Hin. apply listHas_true in Hin. congruence.
Qed.

(** ** Merge of lists *)

Lemma appendLists_filter (a b : list string) :
  appendLists a b = a ++ filter (fun v => v ∉ a) b.
Proof. unfold appendLists. by rewrite appendLists_loop_filter. Qed.

Lemma filter_none (P : string -> Prop) `{!forall x, Decision (P x)} (l : list string) :
  (forall x, x ∈ l -> ~ P x) -> filter P l = [].
Proof.
  induction l as [|x l IH]; intros Hall; [done |].
  rewrite filter_cons_False.
  - apply IH. intros y Hy. apply Hall. by right.
  - apply Hall. by left.
Qed.

(** C7. [appendLists A B] is [A], in its order and in full, followed by the
    elements of [B] that do not occur in [A]; merging [B] into the result
    once more changes nothing; and the result is no longer than [A] and [B]
    together. *)
Theorem appendLists_base_then_new (A B : list string) :
  appendLists A B = A ++ filter (fun v => v ∉ A) B /\
  appendLists (appendLists A B) B = appendLists A B /\
  length (appendLists A B) <= length A + length B.
Proof.
  split; [apply appendLists_filter |]. split.
  - rewrite (appendLists_filter (appendLists A B) B).
    rewrite filter_none; [by rewrite app_nil_r |].
    intros x Hx Hnot. apply Hnot.
    rewrite appendLists_filter. apply elem_of_app.
    destruct (decide (x ∈ A)) as [Hin | Hout]; [by left | right].
    apply list_elem_of_filter. done.
  - rewrite appendLists_filter, length_app.
    pose proof (length_filter (fun v => v ∉ A) B). lia.
Qed.

Lemma occurrences_app (v : string) (l1 l2 : list string) :
  occurrences v (l1 ++ l2) = occurrences v l1 + occurrences v l2.
Proof. unfold occurrences. by rewrite filter_app, length_app. Qed.

Lemma occurrences_absent (v : string) (l : list string) :
  v ∉ l -> occurrences v l = 0.
Proof.
  intros Hout. unfold occurrences. rewrite filter_none; [done |].
  intros x Hx ->. done.
Qed.

Lemma occurrences_filter (P : string -> Prop) `{!forall x, Decision (P x)}
    (v : string) (l : list string) :
  occurrences v (filter P l) = if decide (P v) then occurrences v l else 0.
Proof.
  unfold occurrences. induction l as [|x l IH].
  - by destruct (decide (P v)).
  - rewrite (filter_cons P), (filter_cons (fun y => y = v) x l).
    destruct (decide (P x)) as [HP | HP], (decide (x = v)) as [-> | Hne].
    + rewrite filter_cons_True by done. simpl length. rewrite IH.
      by destruct (decide (P v)).
    + by rewrite filter_cons_False.
    + rewrite IH. by destruct (decide (P v)).
    + done.
Qed.

(** C10. [appendLists] tests membership against the base list only: an
    element absent from the base is appended once for each of its occurrences
    in the addition, an element of the base keeps the number of occurrences it
    has in the base; appending ["x"; "x"] to the empty list gives
    ["x"; "x"]. *)
Theorem appendLists_keeps_duplicates (A B : list string) (v : string) :
  appendLists [] ["x"; "x"] = ["x"; "x"] /\
  occurrences v (appendLists A B) =
    if decide (v ∈ A) then occurrences v A else occurrences v B.
Proof.
  split; [reflexivity |].
  rewrite appendLists_filter, occurrences_app, occurrences_filter.
  destruct (decide (v ∈ A)) as [Hin | Hout].
  - destruct (decide (v ∉ A)); [done | lia].
  - destruct (decide (v ∉ A)); [| done].
    rewrite occurrences_absent by done. lia.
Qed.

(** ** Merge of maps *)

Lemma contents_insert_eq (h : heap) (l : loc) (m : gmap string string) :
  contents (<[l := m]> h) (Some l) = m.
Proof. unfold contents. by rewrite lookup_insert_eq. Qed.

Lemma contents_insert_apart (h : heap) (l : loc) (m : gmap string string) (r : mapref) :
  apart (Some l) r -> contents (<[l := m]> h) r = contents h r.
Proof.
  destruct r as [l' |]; [| done]. simpl. intros Hne.
  by rewrite lookup_insert_ne.
Qed.

Lemma appendStringMaps_loop_allocated (l : loc) (entries : list (string * string))
    (h : heap) :
  NoDup entries.*1 ->
  exists h',
    appendStringMaps_loop (Some l) entries h = Done h' /\
    contents h' (Some l) = list_to_map entries ∪ contents h (Some l) /\
    forall r, apart (Some l) r -> contents h' r = contents h r.
Proof.
  revert h. induction entries as [| [k v] rest IH]; intros h Hnd.
  - exists h. split; [done |]. split; [| done].
    simpl. by rewrite (left_id_L ∅ (∪)).
  - inversion Hnd as [| ? ? Hk Hrest]; subst.
    destruct (IH (<[l := <[k := v]> (contents h (Some l))]> h) Hrest)
      as (h' & Hrun & Hc & Hframe).
    exists h'. split; [exact Hrun |]. split.
    + rewrite Hc, contents_insert_eq. simpl list_to_map.
      rewrite <- insert_union_l. symmetry. apply insert_union_r.
      by apply not_elem_of_list_to_map_1.
    + intros r Hr. rewrite Hframe by done. by apply contents_insert_apart.
Qed.

(** With an allocated first argument [appendStringMaps] returns that same
    map object, now holding the entries of [b] over its own, and leaves every
    other map object as it was. *)
Lemma appendStringMaps_allocated (l : loc) (b : mapref) (h : heap) :
  exists h',
    appendStringMaps (Some l) b h = Done (Some l, h') /\
    contents h' (Some l) = contents h b ∪ contents h (Some l) /\
    forall r, apart (Some l) r -> contents h' r = contents h r.
Proof.
  destruct (appendStringMaps_loop_allocated l (map_to_list (contents h b)) h)
    as (h' & Hrun & Hc & Hframe).
  { apply NoDup_fst_map_to_list. }
  exists h'. split; [| split; [| done]].
  - unfold appendStringMaps. by rewrite Hrun.
  - by rewrite Hc, list_to_map_to_list.
Qed.

(** With a nil first argument it returns nil when [b] has no entry and
    panics at the first entry otherwise. *)
Lemma appendStringMaps_nil (b : mapref) (h : heap) :
  appendStringMaps None b h =
    if decide (contents h b = ∅) then Done (None, h) else Panic.
Proof.
  unfold appendStringMaps.
  destruct (decide (contents h b = ∅)) as [He | Hne].
  - by rewrite He, map_to_list_empty.
  - destruct (map_to_list (contents h b)) as [| [k v] rest] eqn:E.
    + by apply map_to_list_empty_iff in E.
    + done.
Qed.

(** What the claim C8 asks of the result holds whenever the first argument
    is an allocated map. *)
Lemma appendStringMaps_allocated_lookup (l : loc) (b : mapref) (h : heap) :
  exists h',
    appendStringMaps (Some l) b h = Done (Some l, h') /\
    (forall k v, contents h b !! k = Some v -> contents h' (Some l) !! k = Some v) /\
    (forall k, contents h b !! k = None ->
               contents h' (Some l) !! k = contents h (Some l) !! k).
Proof.
  destruct (appendStringMaps_allocated l b h) as (h' & Hrun & Hc & _).
  exists h'. split; [done |]. rewrite Hc. split.
  - intros k v Hk. by apply lookup_union_Some_l.
  - intros k Hk. by apply lookup_union_r.
Qed.

(** C8 (divergence). Merging the one-entry map at address 2 into a nil map
    does not return a map: the run panics at the assignment [a[k] = v]. *)
Theorem appendStringMaps_nil_base_panics :
  contents sample_heap (Some 2%positive) = {["app" := "y"]} /\
  appendStringMaps None (Some 2%positive) sample_heap = Panic.
Proof. split; reflexivity. Qed.

(** C1 (divergence). [appendStringMaps] writes the entries of its second
    argument into the map object that is its first argument, and resolving
    [sample_local] against [sample_global] thereby adds the local label "app"
    to the map the global configuration holds under [labels.common]. *)
Theorem UpdateConfig_writes_global_map :
  contents sample_heap (Label_Common (Global_Labels sample_global)) = {["team" := "x"]} /\
  (exists h',
     appendStringMaps (Some 1%positive) (Some 2%positive) sample_heap
       = Done (Some 1%positive, h') /\
     contents h' (Some 1%positive) = <["app" := "y"]> {["team" := "x"]}) /\
  (exists g' h',
     UpdateConfig sample_local (Some sample_global) sample_heap = Done (g', h') /\
     contents h' (Label_Common (Global_Labels sample_global))
       = <["app" := "y"]> {["team" := "x"]}).
Proof.
  split; [reflexivity |]. split.
  - destruct (appendStringMaps (Some 1%positive) (Some 2%positive) sample_heap)
      as [[m h'] |] eqn:E; vm_compute in E; [| discriminate].
    injection E as <- <-. eexists. split; reflexivity.
  - destruct (UpdateConfig sample_local (Some sample_global) sample_heap)
      as [[g' h'] |] eqn:E; vm_compute in E; [| discriminate].
    injection E as <- <-. eexists _, _. split; reflexivity.
Qed.

(** ** Resolution *)

Lemma apart_sym (r1 r2 : mapref) : apart r1 r2 -> apart r2 r1.
Proof. destruct r1, r2; simpl; auto. Qed.

(** The policy of a map sub-field looks at the entries of the two maps only. *)
Lemma policy_map_ext (handling : GlobalHandlingType) (own glob : mapref)
    (h h' : heap) :
  contents h own = contents h' own ->
  contents h glob = contents h' glob ->
  policy_map handling own glob h = policy_map handling own glob h'.
Proof.
  intros Hown Hglob. unfold policy_map.
  destruct (decide (handling = appendGlobal)) as [_ | _].
  - destruct glob as [l |].
    + destruct (appendStringMaps_allocated l own h) as (h1 & -> & Hc1 & _).
      destruct (appendStringMaps_allocated l own h') as (h2 & -> & Hc2 & _).
      run_bind. by rewrite Hc1, Hc2, Hown, Hglob.
    + rewrite !appendStringMaps_nil, Hown.
      by destruct (decide (contents h' own = ∅)).
  - rewrite Hown, Hglob. done.
Qed.

Lemma list_test (l : list string) (handling : GlobalHandlingType) :
  bool_decide (length l = 0) && negb (bool_decide (handling = replaceGlobal)) = true
  <-> ~ (handling = replaceGlobal \/ l <> []).
Proof.
  rewrite andb_true_iff, negb_true_iff, bool_decide_eq_true, bool_decide_eq_false.
  rewrite length_zero_iff_nil. destruct (decide (l = [])); tauto.
Qed.

Lemma map_test (m : gmap string string) (handling : GlobalHandlingType) :
  bool_decide (size m = 0) && negb (bool_decide (handling = replaceGlobal)) = true
  <-> ~ (handling = replaceGlobal \/ m <> ∅).
Proof.
  rewrite andb_true_iff, negb_true_iff, bool_decide_eq_true, bool_decide_eq_false.
  rewrite map_size_empty_iff.
  destruct (decide (m = ∅)); tauto.
Qed.

Lemma UpdateConfig_Labels_FromCRD_policy (g : Generator) (gc : GeneratorConfig) :
  let g1 := UpdateConfig_Labels_FromCRD g gc in
  Labels_FromCRD g1 =
    policy_list (HandleLabel_FromCRD (LocalLabel_GlobalHandling (Labels g)))
      (Labels_FromCRD g) (Label_FromCRD (Global_Labels gc)) /\
  Labels_Common g1 = Labels_Common g /\
  LocalLabel_GlobalHandling (Labels g1) = LocalLabel_GlobalHandling (Labels g) /\
  Tags g1 = Tags g.
Proof.
  unfold UpdateConfig_Labels_FromCRD, policy_list. simpl.
  destruct (decide (_ = appendGlobal)); [done |].
  destruct (bool_decide _ && _) eqn:E.
  - apply list_test in E. by rewrite decide_False.
  - rewrite decide_True; [done |].
    destruct (decide (HandleLabel_FromCRD (LocalLabel_GlobalHandling (Labels g))
                      = replaceGlobal \/ Labels_FromCRD g <> [])) as [|Hn]; [done |].
    apply list_test in Hn. congruence.
Qed.

Lemma UpdateConfig_Tags_FromLabels_policy (g : Generator) (gc : GeneratorConfig) :
  let g1 := UpdateConfig_Tags_FromLabels g gc in
  Tags_FromLabels g1 =
    policy_list (HandleTag_FromLabels (LocalTag_GlobalHandling (Tags g)))
      (Tags_FromLabels g) (Tag_FromLabels (Global_Tags gc)) /\
  Tags_Common g1 = Tags_Common g /\
  LocalTag_GlobalHandling (Tags g1) = LocalTag_GlobalHandling (Tags g) /\
  Labels g1 = Labels g.
Proof.
  unfold UpdateConfig_Tags_FromLabels, policy_list. simpl.
  destruct (decide (_ = appendGlobal)); [done |].
  destruct (bool_decide _ && _) eqn:E.
  - apply list_test in E. by rewrite decide_False.
  - rewrite decide_True; [done |].
    destruct (decide (HandleTag_FromLabels (LocalTag_GlobalHandling (Tags g))
                      = replaceGlobal \/ Tags_FromLabels g <> [])) as [|Hn]; [done |].
    apply list_test in Hn. congruence.
Qed.





(** What one generator appends stays in the global map: a generator resolved
    afterwards, with no labels and no policy of its own, inherits it. *)
Lemma UpdateConfig_leaks_between_generators :
  ('(g1, h1) ← UpdateConfig sample_local (Some sample_global) sample_heap;
   '(g2, h2) ← UpdateConfig sample_local_plain (Some sample_global) h1;
   Done (contents h2 (Labels_Common g2) !! "app"))
  = Done (Some "y").
Proof. vm_compute. reflexivity. Qed.

(** ** Validation *)

Lemma CheckConfig_rejects_spec (commonLables : gmap string string)
    (fromCRD : list string) (t : string) :
  CheckConfig_rejects commonLables fromCRD t = true <->
  ~ (is_Some (commonLables !! t) \/ t ∈ fromCRD \/ t ∈ globalLabels).
Proof.
  unfold CheckConfig_rejects.
  rewrite !andb_true_iff, !negb_true_iff, bool_decide_eq_false.
  rewrite <- !not_true_iff_false, !listHas_true. tauto.
Qed.

Lemma CheckConfig_loop_filter (commonLables : gmap string string)
    (fromCRD acc ts : list string) :
  CheckConfig_loop commonLables fromCRD acc ts =
  acc ++ filter (fun t => ~ (is_Some (commonLables !! t) \/ t ∈ fromCRD \/ t ∈ globalLabels)) ts.
Proof.
  revert acc. induction ts as [| t ts IH]; intros acc; simpl.
  - by rewrite app_nil_r.
  - destruct (CheckConfig_rejects commonLables fromCRD t) eqn:E.
    + apply CheckConfig_rejects_spec in E.
      rewrite IH, filter_cons_True by done. by rewrite <- app_assoc.
    + rewrite IH, filter_cons_False; [done |].
      intros Hr. apply CheckConfig_rejects_spec in Hr. congruence.
Qed.

Lemma CheckConfig_filter (json_Marshal : list string -> string)
    (g : Generator) (gc : GeneratorConfig) (h : heap) :
  CheckConfig json_Marshal g (Some gc) h =
  let offending :=
    filter (fun t => ~ (is_Some (contents h (Label_Common (Global_Labels gc)) !! t) \/
                        t ∈ Labels_FromCRD g \/ t ∈ globalLabels))
           (Tags_FromLabels g) in
  if decide (0 < length offending)
  then Done (Some (CheckConfig_message +:+ json_Marshal offending))
  else Done None.
Proof.
  unfold CheckConfig. cbn [deref]. run_bind. cbv zeta.
  rewrite CheckConfig_loop_filter, app_nil_l.
  destruct (decide (0 < length _)) as [Hpos | Hzero]; [| done].
  unfold getJsonStringFromList. by rewrite decide_True.
Qed.

(** C3. [CheckConfig] returns no error exactly when every entry of the
    generator's [tags.fromLabels] is a key of the [labels.common] map of the
    configuration it is checked against, or an element of the generator's
    [labels.fromCRD], or one of the four built-in labels; otherwise the error
    message ends with the JSON list of the entries that are none of these, all
    of them and no others. *)
Theorem CheckConfig_accepts_iff (json_Marshal : list string -> string)
    (g : Generator) (gc : GeneratorConfig) (h : heap) :
  let known t :=
    is_Some (contents h (Label_Common (Global_Labels gc)) !! t) \/
    t ∈ Labels_FromCRD g \/
    t ∈ ["crossplane.io/claim-name"; "crossplane.io/claim-namespace";
         "crossplane.io/composite"; "external-name"] in
  (CheckConfig json_Marshal g (Some gc) h = Done None <->
   forall t, t ∈ Tags_FromLabels g -> known t) /\
  exists offending,
    (forall t, t ∈ offending <-> t ∈ Tags_FromLabels g /\ ~ known t) /\
    (CheckConfig json_Marshal g (Some gc) h <> Done None ->
     CheckConfig json_Marshal g (Some gc) h
     = Done (Some (CheckConfig_message +:+ json_Marshal offending))).
Proof.
  intros known. rewrite CheckConfig_filter. cbv zeta.
  set (offending := filter _ (Tags_FromLabels g)).
  assert (forall t, t ∈ offending <-> t ∈ Tags_FromLabels g /\ ~ known t) as Hoff.
  { intros t. unfold offending. rewrite list_elem_of_filter. unfold known, globalLabels. tauto. }
  split.
  - destruct (decide (0 < length offending)) as [Hpos | Hzero].
    + split; [discriminate |]. intros Hall.
      destruct offending as [| t rest]; [simpl in Hpos; lia |].
      destruct (Hoff t) as [Hin _].
      destruct Hin as [Ht Hk]; [by left |]. by specialize (Hall t Ht).
    + split; [| done]. intros _ t Ht.
      assert (Decision (known t)) as [Hk | Hk] by (unfold known; apply _); [done |].
      assert (t ∈ offending) as Hin by (by apply Hoff).
      destruct offending; [inversion Hin | simpl in Hzero; lia].
  - exists offending. split; [exact Hoff |].
    destruct (decide (0 < length offending)) as [Hpos | Hzero]; [| done].
    done.
Qed.

(** C9. The result of [CheckConfig] does not depend on the generator's own
    [labels.common]: two generators with the same [tags.fromLabels] and the
    same [labels.fromCRD], checked against a global configuration whose
    [labels.common] has the same entries, get the same result, whatever map
    each holds under its own [labels.common]. *)
Theorem CheckConfig_ignores_local_common (json_Marshal : list string -> string)
    (g1 g2 : Generator) (gc : GeneratorConfig) (h1 h2 : heap) :
  Tags_FromLabels g1 = Tags_FromLabels g2 ->
  Labels_FromCRD g1 = Labels_FromCRD g2 ->
  contents h1 (Label_Common (Global_Labels gc))
    = contents h2 (Label_Common (Global_Labels gc)) ->
  CheckConfig json_Marshal g1 (Some gc) h1 = CheckConfig json_Marshal g2 (Some gc) h2.
Proof.
  intros Ht Hl Hc. rewrite !CheckConfig_filter. by rewrite Ht, Hl, Hc.
Qed.

(** The two generators differ in the map they hold under [labels.common]
    (none, and the map at address 2) and in that map's entries. *)
Lemma CheckConfig_ignores_local_common_witness :
  Labels_Common (set_Labels_Common sample_local_own_labels None)
    <> Labels_Common sample_local_own_labels /\
  CheckConfig sample_json_Marshal
    (set_Labels_Common sample_local_own_labels None) (Some sample_global)
    (<[2%positive := ∅]> sample_heap)
  = CheckConfig sample_json_Marshal sample_local_own_labels (Some sample_global)
      sample_heap.
Proof.
  split; [discriminate |].
  apply (CheckConfig_ignores_local_common sample_json_Marshal
           (set_Labels_Common sample_local_own_labels None)
           sample_local_own_labels sample_global
           (<[2%positive := ∅]> sample_heap) sample_heap);
    reflexivity.
Defined.

(** A tag taken from a label the generator itself defines under
    [labels.common] is rejected when the global [labels.common] lacks it:
    here "app" is a key of the generator's resolved map, "team" a key of the
    global one. *)
Lemma CheckConfig_rejects_own_label :
  ('(g', h') ← UpdateConfig sample_local_own_labels (Some sample_global) sample_heap;
   err ← CheckConfig sample_json_Marshal g' (Some sample_global) h';
   Done (contents h' (Labels_Common g') !! "app", err))
  = Done (Some "y",
          Some (CheckConfig_message +:+ "[" +:+ quote +:+ "app" +:+ quote +:+ "]")).
Proof. vm_compute. reflexivity. Qed.

(** ** Output loop *)

Section OutputProperties.
Context {content : Type}.
Variable yaml_Marshal : content -> string.
Variable yaml_Unmarshal : string -> content.
Variable cmp_Equal : content -> content -> bool.
Variable filepath_Join : string -> string -> string.

Local Abbreviation write := (Exec_write content yaml_Marshal yaml_Unmarshal cmp_Equal filepath_Join).
Local Abbreviation loop := (Exec_write_loop content yaml_Marshal yaml_Unmarshal cmp_Equal filepath_Join).
Local Abbreviation unchanged := (Exec_unchanged content yaml_Unmarshal cmp_Equal filepath_Join).
Local Abbreviation fp := (Exec_fp filepath_Join).

Lemma Exec_write_cases (outPath header fn : string) (fc : content)
    (files : gmap string string) :
  write outPath header fn fc files =
    if unchanged outPath fn fc files then files
    else <[fp outPath fn := header +:+ yaml_Marshal fc]> files.
Proof.
  unfold Exec_write, Exec_unchanged. cbv zeta.
  by destruct (files !! fp outPath fn).
Qed.

(** The loop leaves alone every path that is not the destination of one of
    its keys. *)
Lemma Exec_write_loop_other (outPath header : string)
    (jso : list (string * content)) (files : gmap string string) (p : string) :
  p ∉ (fun kv => fp outPath kv.1) <$> jso ->
  loop outPath header jso files !! p = files !! p.
Proof.
  revert files. induction jso as [| [fn fc] rest IH]; intros files Hp; [done |].
  rewrite fmap_cons in Hp. apply not_elem_of_cons in Hp as [Hne Hrest].
  simpl. rewrite IH by done. rewrite Exec_write_cases.
  destruct (unchanged outPath fn fc files); [done |].
  by rewrite lookup_insert_ne.
Qed.

Lemma Exec_write_loop_all_unchanged (outPath header : string)
    (jso : list (string * content)) (files : gmap string string) :
  Forall (fun kv => unchanged outPath kv.1 kv.2 files = true) jso ->
  loop outPath header jso files = files.
Proof.
  induction 1 as [| [fn fc] rest Hhead _ IH]; [done |].
  simpl. rewrite Exec_write_cases. simpl in Hhead. by rewrite Hhead.
Qed.

(** After a run every key's file is there and parses to the key's
    document, provided written files parse back to what was written and no
    two keys share a destination. *)
Lemma Exec_write_loop_settles (outPath header : string)
    (jso : list (string * content)) (files : gmap string string) :
  Forall (fun kv => cmp_Equal kv.2 (yaml_Unmarshal (header +:+ yaml_Marshal kv.2)) = true) jso ->
  NoDup ((fun kv => fp outPath kv.1) <$> jso) ->
  Forall (fun kv => unchanged outPath kv.1 kv.2 (loop outPath header jso files) = true) jso.
Proof.
  intros Hround. revert files.
  induction Hround as [| [fn fc] rest Hhead _ IH]; intros files Hnd; [constructor |].
  rewrite fmap_cons in Hnd. apply NoDup_cons in Hnd as [Hfresh Hnd].
  constructor; [| by apply IH].
  simpl. unfold Exec_unchanged.
  rewrite Exec_write_loop_other by done.
  rewrite Exec_write_cases. unfold Exec_unchanged.
  destruct (files !! fp outPath fn) as [yi |] eqn:Hfile.
  - destruct (cmp_Equal fc (yaml_Unmarshal yi)) eqn:Heq.
    + by rewrite Hfile.
    + by rewrite lookup_insert_eq.
  - by rewrite lookup_insert_eq.
Qed.

(** C6. The destination of a key is [filepath.Join] of the output directory
    (the [outputPath] flag when it is not empty, the generator's source
    directory otherwise) and the key, followed by ".yaml".  A key whose file
    exists and parses to a document equal to the generated one leaves the
    files as they are; any other key has its file replaced by the header
    followed by the YAML text.  Hence a run in which every key's file is
    already equal changes no file, and so does a second run of the same
    output (even at a later time), when written files parse back to what was
    written and no two keys share a destination. *)
Theorem Exec_output_skips_unchanged (g : Generator) (outputPath now : string) :
  let outDir := if decide (outputPath = "") then configPath g else outputPath in
  let dest fn := filepath_Join outDir fn +:+ ".yaml" in
  let same fn fc (files : gmap string string) :=
    match files !! dest fn with
    | Some yi => cmp_Equal fc (yaml_Unmarshal yi)
    | None => false
    end in
  let run := Exec_output content yaml_Marshal yaml_Unmarshal cmp_Equal filepath_Join g outputPath in
  (forall files, run now [] files = files) /\
  (forall fn fc rest files,
     run now ((fn, fc) :: rest) files =
     run now rest
       (if same fn fc files then files
        else <[dest fn := autogenHeader now +:+ yaml_Marshal fc]> files)) /\
  (forall jso files,
     Forall (fun kv => same kv.1 kv.2 files = true) jso ->
     run now jso files = files) /\
  (forall jso files later,
     Forall (fun kv => cmp_Equal kv.2 (yaml_Unmarshal (autogenHeader now +:+ yaml_Marshal kv.2)) = true) jso ->
     NoDup ((fun kv => dest kv.1) <$> jso) ->
     run later jso (run now jso files) = run now jso files).
Proof.
  intros outDir dest same run.
  assert (Exec_outPath g outputPath = outDir) as Hout.
  { unfold Exec_outPath, outDir.
    destruct (decide (outputPath = "")), (decide (outputPath <> "")); done. }
  assert (forall t jso files, run t jso files = loop outDir (autogenHeader t) jso files) as Hrun.
  { intros. unfold run, Exec_output. by rewrite Hout. }
  split; [done |]. split; [| split].
  - intros fn fc rest files. rewrite !Hrun. simpl.
    by rewrite Exec_write_cases.
  - intros jso files Hall. rewrite Hrun.
    by apply Exec_write_loop_all_unchanged.
  - intros jso files later Hround Hnd. rewrite !Hrun.
    apply Exec_write_loop_all_unchanged.
    by apply Exec_write_loop_settles.
Qed.
End OutputProperties.

(** Two documents written to an empty directory "out", then generated again
    an hour later: the second run leaves both files as the first wrote them. *)
Lemma Exec_output_skips_unchanged_witness :
  Exec_output string sample_yaml_Marshal sample_yaml_Unmarshal sample_cmp_Equal
    sample_filepath_Join sample_local "out" "11:00:00 on 01-02-2024" sample_jso
    (Exec_output string sample_yaml_Marshal sample_yaml_Unmarshal sample_cmp_Equal
       sample_filepath_Join sample_local "out" "10:00:00 on 01-02-2024" sample_jso ∅)
  = <["out/bucket.yaml" := autogenHeader "10:00:00 on 01-02-2024" +:+ "kind: Bucket"]>
      (<["out/queue.yaml" := autogenHeader "10:00:00 on 01-02-2024" +:+ "kind: Queue"]> ∅).
Proof.
  rewrite (proj2 (proj2 (proj2
    (Exec_output_skips_unchanged sample_yaml_Marshal sample_yaml_Unmarshal
       sample_cmp_Equal sample_filepath_Join sample_local "out"
       "10:00:00 on 01-02-2024")))).
  - vm_compute. reflexivity.
  - repeat constructor.
  - cbn [fmap list_fmap sample_jso fst].
    apply NoDup_cons. split; [| apply NoDup_singleton].
    intros Hin. apply list_elem_of_singleton in Hin. vm_compute in Hin.
    discriminate.
Defined.

(** ** Tag-schema detection *)

Lemma tryToGetTags_loop_absent (versions : list CustomResourceDefinitionVersion)
    (version : string) :
  Forall (fun sv => Version_Name sv <> version) versions ->
  tryToGetTags_loop versions version = Done None.
Proof.
  induction 1 as [| sv rest Hsv _ IH]; [done |].
  simpl. destruct (decide (Version_Name sv = version)); done.
Qed.

(** A version name that no entry of the version list carries is not found. *)
Lemma tryToGetTags_version_absent (crd : CustomResourceDefinition) (version : string) :
  Forall (fun sv => Version_Name sv <> version) (Versions (Spec crd)) ->
  tryToGetTags crd version = Done None /\
  checkTagType crd version = Done ("", "").
Proof.
  intros Habsent.
  assert (tryToGetTags crd version = Done None) as Hnone.
  { unfold tryToGetTags. destruct (decide (0 < _)); [| done].
    by apply tryToGetTags_loop_absent. }
  split; [done |]. unfold checkTagType. by rewrite Hnone.
Qed.

(** In a CRD whose one version has a schema down to [spec.forProvider], the
    [tags] property is taken when present, [tagging.tagSet] otherwise, and
    nothing is found when both are missing. *)
Lemma tryToGetTags_forProvider (props : gmap string JSONSchemaProps) :
  tryToGetTags (crd_forProvider props) "v1beta1" =
    match props !! "tags" with
    | Some tags => Done (Some (tags, "tag"))
    | None =>
        match props !! "tagging" with
        | Some tagging =>
            match Properties tagging !! "tagSet" with
            | Some tagSet => Done (Some (tagSet, "tagSet"))
            | None => Done None
            end
        | None => Done None
        end
    end.
Proof.
  unfold tryToGetTags, crd_forProvider. cbn -[lookup].
  rewrite decide_True by lia. rewrite decide_True by done.
  rewrite lookup_singleton_eq. cbn -[lookup].
  rewrite lookup_singleton_eq. cbn -[lookup].
  destruct (props !! "tags"); [done |].
  destruct (props !! "tagging") as [tagging |]; [| done].
  by destruct (Properties tagging !! "tagSet").
Qed.

(** The three shapes, for a node that [tryToGetTags] found. *)
Lemma checkTagType_keyValueArray (crd : CustomResourceDefinition) (version : string)
    (tags : JSONSchemaProps) (tagProperty : string)
    (its : JSONSchemaPropsOrArray) (itemSchema : JSONSchemaProps) :
  tryToGetTags crd version = Done (Some (tags, tagProperty)) ->
  Type_ tags = "array" ->
  Items tags = Some its ->
  Items_Schema its = Some itemSchema ->
  Type_ itemSchema = "object" ->
  is_Some (Properties itemSchema !! "key") ->
  is_Some (Properties itemSchema !! "value") ->
  checkTagType crd version = Done ("keyValueArray", tagProperty).
Proof.
  intros Hfound Harr Hits Hschema Hobj Hkey Hvalue.
  unfold checkTagType, checkTagType_array. rewrite Hfound. run_bind.
  rewrite (decide_True _ _ Harr), Hits. cbn [deref].
  rewrite Hschema. cbn [deref]. cbv zeta.
  rewrite (decide_True _ _ Hobj).
  by rewrite !bool_decide_eq_true_2 by done.
Qed.

Lemma checkTagType_tagKeyValueArray (crd : CustomResourceDefinition) (version : string)
    (tags : JSONSchemaProps) (tagProperty : string)
    (its : JSONSchemaPropsOrArray) (itemSchema : JSONSchemaProps) :
  tryToGetTags crd version = Done (Some (tags, tagProperty)) ->
  Type_ tags = "array" ->
  Items tags = Some its ->
  Items_Schema its = Some itemSchema ->
  Type_ itemSchema = "object" ->
  ~ (is_Some (Properties itemSchema !! "key") /\
     is_Some (Properties itemSchema !! "value")) ->
  is_Some (Properties itemSchema !! "tagKey") ->
  is_Some (Properties itemSchema !! "tagValue") ->
  checkTagType crd version = Done ("tagKeyValueArray", tagProperty).
Proof.
  intros Hfound Harr Hits Hschema Hobj Hnot Hkey Hvalue.
  unfold checkTagType, checkTagType_array. rewrite Hfound. run_bind.
  rewrite (decide_True _ _ Harr), Hits. cbn [deref].
  rewrite Hschema. cbn [deref]. cbv zeta.
  rewrite (decide_True _ _ Hobj).
  destruct (bool_decide (is_Some (Properties itemSchema !! "key"))
            && bool_decide (is_Some (Properties itemSchema !! "value"))) eqn:E.
  - apply andb_true_iff in E as [E1 E2].
    apply bool_decide_eq_true in E1, E2. tauto.
  - by rewrite !bool_decide_eq_true_2 by done.
Qed.

Lemma checkTagType_stringObject (crd : CustomResourceDefinition) (version : string)
    (tags : JSONSchemaProps) (tagProperty : string)
    (ap : JSONSchemaPropsOrBool) (apSchema : JSONSchemaProps) :
  tryToGetTags crd version = Done (Some (tags, tagProperty)) ->
  Type_ tags = "object" ->
  AdditionalProperties tags = Some ap ->
  AdditionalProperties_Schema ap = Some apSchema ->
  Type_ apSchema = "string" ->
  checkTagType crd version = Done ("stringObject", tagProperty).
Proof.
  intros Hfound Hobj Hap Hschema Hstr.
  unfold checkTagType, checkTagType_array, checkTagType_object.
  rewrite Hfound. run_bind.
  assert (Type_ tags <> "array") as Hna by (rewrite Hobj; discriminate).
  rewrite (decide_False _ _ Hna).
  rewrite (decide_True _ _ Hobj), Hap. cbn [deref].
  rewrite Hschema. cbn [deref].
  by rewrite (decide_True _ _ Hstr).
Qed.

(** The detector on the sample documents. *)
Lemma checkTagType_samples :
  checkTagType (crd_forProvider {["tags" := tags_key_value]}) "v1beta1"
    = Done ("keyValueArray", "tag") /\
  checkTagType (crd_forProvider {["tags" := tags_tagKey_tagValue]}) "v1beta1"
    = Done ("tagKeyValueArray", "tag") /\
  checkTagType (crd_forProvider {["tags" := tags_string_object]}) "v1beta1"
    = Done ("stringObject", "tag") /\
  checkTagType (crd_forProvider
                  {["tagging" := schema_object {["tagSet" := tags_key_value]}]}) "v1beta1"
    = Done ("keyValueArray", "tagSet") /\
  checkTagType (crd_forProvider
                  (<["tags" := tags_string_object]>
                     {["tagging" := schema_object {["tagSet" := tags_key_value]}]})) "v1beta1"
    = Done ("stringObject", "tag") /\
  checkTagType (crd_forProvider {["tags" := schema_of_type "string"]}) "v1beta1"
    = Done ("", "") /\
  checkTagType (crd_forProvider ∅) "v1beta1" = Done ("", "") /\
  checkTagType (crd_forProvider {["tags" := tags_key_value]}) "v1" = Done ("", "").
Proof. repeat split; vm_compute; reflexivity. Qed.

(** C4 (divergence). A [tags] node of type array that declares no [items]
    matches none of the three shapes, yet the detector does not return the
    unknown result: it panics on [tags.Items.Schema]. *)
Theorem checkTagType_array_without_items_panics :
  tryToGetTags (crd_forProvider {["tags" := tags_array_without_items]}) "v1beta1"
    = Done (Some (tags_array_without_items, "tag")) /\
  checkTagType (crd_forProvider {["tags" := tags_array_without_items]}) "v1beta1"
    = Panic.
Proof. split; vm_compute; reflexivity. Qed.

(** C5 (divergence). Detection panics instead of returning when a level it
    dereferences is missing: the schema of the requested version, the item
    schema of an array whose items are given as a list, the
    [additionalProperties] of an object with declared properties, and the
    schema of an [additionalProperties] given as a boolean. *)
Theorem checkTagType_missing_level_panics :
  checkTagType crd_without_schema "v1beta1" = Panic /\
  checkTagType (crd_forProvider {["tags" := tags_array_items_list]}) "v1beta1" = Panic /\
  checkTagType (crd_forProvider {["tags" := tags_structured_object]}) "v1beta1" = Panic /\
  checkTagType (crd_forProvider {["tags" := tags_object_any]}) "v1beta1" = Panic.
Proof. repeat split; vm_compute; reflexivity. Qed.

(** ** What resolution leaves alone *)

(** When neither map sub-field is under the append policy, resolution writes
    no map object at all. *)
Lemma UpdateConfig_without_append_keeps_store (g : Generator) (gc : GeneratorConfig)
    (h : heap) :
  HandleLabel_Common (LocalLabel_GlobalHandling (Labels g)) <> appendGlobal ->
  HandleTag_Common (LocalTag_GlobalHandling (Tags g)) <> appendGlobal ->
  exists g', UpdateConfig g (Some gc) h = Done (g', h).
Proof.
  intros HL HT. unfold UpdateConfig.
  destruct (UpdateConfig_Labels_FromCRD_policy g gc) as (_ & _ & Hh1 & Ht1).
  set (g1 := UpdateConfig_Labels_FromCRD g gc) in *.
  assert (exists g2, UpdateConfig_Labels_Common g1 gc h = Done (g2, h) /\ Tags g2 = Tags g1)
    as (g2 & -> & Ht2).
  { unfold UpdateConfig_Labels_Common. rewrite Hh1.
    rewrite decide_False by done.
    destruct (bool_decide _ && _); eauto. }
  run_bind.
  destruct (UpdateConfig_Tags_FromLabels_policy g2 gc) as (_ & _ & Hh3 & _).
  set (g3 := UpdateConfig_Tags_FromLabels g2 gc) in *.
  unfold UpdateConfig_Tags_Common. rewrite Hh3, Ht2, Ht1.
  rewrite decide_False by done.
  destruct (bool_decide _ && _); eauto.
Qed.

(** ** Where detection does return *)

(** The lookup returns when every version entry carrying the requested name
    has its schema. *)
Lemma tryToGetTags_returns (crd : CustomResourceDefinition) (version : string) :
  Forall (fun sv => Version_Name sv = version ->
                    exists validation root,
                      Version_Schema sv = Some validation /\
                      OpenAPIV3Schema validation = Some root)
         (Versions (Spec crd)) ->
  exists found, tryToGetTags crd version = Done found.
Proof.
  intros Hall. unfold tryToGetTags.
  destruct (decide (0 < _)) as [_ | _]; [| by eexists].
  induction Hall as [| sv rest Hsv _ IH]; [by eexists |].
  simpl. destruct (decide (Version_Name sv = version)) as [Hname | _]; [| exact IH].
  destruct (Hsv Hname) as (validation & root & Hv & Hr).
  unfold tryToGetTags_at. rewrite Hv. cbn [deref]. run_bind.
  rewrite Hr. cbn [deref].
  destruct (Properties root !! "spec") as [specs |]; [| exact IH].
  destruct (Properties specs !! "forProvider") as [forProvider |]; [| exact IH].
  destruct (Properties forProvider !! "tags"); [by eexists |].
  destruct (Properties forProvider !! "tagging") as [tagging |]; [| exact IH].
  destruct (Properties tagging !! "tagSet"); [by eexists | exact IH].
Qed.

(** The classification returns, with the tag property of the node or with
    the unknown result, when an array node has its item schema and an object
    node the schema of its additional properties. *)
Lemma checkTagType_returns (crd : CustomResourceDefinition) (version : string)
    (tags : JSONSchemaProps) (tagProperty : string) :
  tryToGetTags crd version = Done (Some (tags, tagProperty)) ->
  (Type_ tags = "array" ->
   exists its itemSchema, Items tags = Some its /\ Items_Schema its = Some itemSchema) ->
  (Type_ tags = "object" ->
   exists ap apSchema,
     AdditionalProperties tags = Some ap /\ AdditionalProperties_Schema ap = Some apSchema) ->
  exists tagType,
    checkTagType crd version = Done (tagType, if decide (tagType = "") then "" else tagProperty).
Proof.
  intros Hfound Harr Hobj.
  unfold checkTagType, checkTagType_array, checkTagType_object.
  rewrite Hfound. run_bind.
  destruct (decide (Type_ tags = "array")) as [Ha | Hna].
  - destruct (Harr Ha) as (its & itemSchema & -> & Hs). cbn [deref].
    rewrite Hs. cbn [deref]. cbv zeta.
    assert (Type_ tags <> "object") as Hno by (rewrite Ha; discriminate).
    rewrite (decide_False _ _ Hno).
    destruct (decide (Type_ itemSchema = "object")); [| by exists ""].
    destruct (_ && _); [by exists "keyValueArray" |].
    destruct (_ && _); [by exists "tagKeyValueArray" | by exists ""].
  - destruct (decide (Type_ tags = "object")) as [Ho | Hno]; [| by exists ""].
    destruct (Hobj Ho) as (ap & apSchema & -> & Hs). cbn [deref].
    rewrite Hs. cbn [deref].
    destruct (decide (Type_ apSchema = "string")); [by exists "stringObject" | by exists ""].
Qed.

(** * Further properties of the code *)

(** ** [listHas] and [appendLists] *)

(** X1. [listHas] decides membership. *)
Theorem listHas_decides_membership (l : list string) (v : string) :
  listHas l v = bool_decide (v ∈ l).
Proof.
  destruct (listHas l v) eqn:E; symmetry.
  - apply bool_decide_eq_true. by apply listHas_true.
  - apply bool_decide_eq_false. intros Hin. apply listHas_true in Hin. congruence.
Qed.

(** X2. As a set, the result of [appendLists] is the union of its
    arguments. *)
Theorem appendLists_elements (A B : list string) (v : string) :
  v ∈ appendLists A B <-> v ∈ A \/ v ∈ B.
Proof.
  rewrite appendLists_filter, elem_of_app, list_elem_of_filter.
  destruct (decide (v ∈ A)); tauto.
Qed.

(** X3. Merging two duplicate-free lists gives a duplicate-free list. *)
Theorem appendLists_NoDup (A B : list string) :
  NoDup A -> NoDup B -> NoDup (appendLists A B).
Proof.
  intros HA HB. rewrite appendLists_filter. apply NoDup_app.
  split; [done |]. split; [| by apply NoDup_filter].
  intros x Hx Hf. apply list_elem_of_filter in Hf as [Hout _]. done.
Qed.

Lemma appendLists_NoDup_witness :
  NoDup (appendLists ["a"; "b"] ["b"; "c"]) /\
  appendLists ["a"; "b"] ["b"; "c"] = ["a"; "b"; "c"].
Proof.
  split; [| reflexivity].
  apply (appendLists_NoDup ["a"; "b"] ["b"; "c"]);
    apply (bool_decide_unpack _); vm_compute; exact I.
Defined.

Lemma filter_filter_and (P Q : string -> Prop)
    `{!forall x, Decision (P x)} `{!forall x, Decision (Q x)} (l : list string) :
  filter P (filter Q l) = filter (fun x => P x /\ Q x) l.
Proof.
  induction l as [| x l IH]; [done |].
  rewrite (filter_cons Q), (filter_cons (fun x => P x /\ Q x)).
  destruct (decide (Q x)) as [HQ | HQ].
  - rewrite filter_cons. destruct (decide (P x)) as [HP | HP].
    + rewrite decide_True by done. by rewrite IH.
    + rewrite decide_False by tauto. done.
  - rewrite decide_False by tauto. done.
Qed.

Lemma filter_ext_elem (P Q : string -> Prop)
    `{!forall x, Decision (P x)} `{!forall x, Decision (Q x)} (l : list string) :
  (forall x, x ∈ l -> (P x <-> Q x)) -> filter P l = filter Q l.
Proof.
  induction l as [| x l IH]; intros Hext; [done |].
  rewrite !filter_cons.
  assert (filter P l = filter Q l) as ->.
  { apply IH. intros y Hy. apply Hext. by right. }
  destruct (decide (P x)) as [HP | HP], (decide (Q x)) as [HQ | HQ]; try done.
  - exfalso. apply HQ. apply Hext; [by left | done].
  - exfalso. apply HP. apply Hext; [by left | done].
Qed.

(** X4. [appendLists] has the empty list as neutral element on both sides,
    is associative, and merging a list into itself gives the list back. *)
Theorem appendLists_monoid (A B C : list string) :
  appendLists A [] = A /\
  appendLists [] B = B /\
  appendLists A A = A /\
  appendLists (appendLists A B) C = appendLists A (appendLists B C).
Proof.
  split; [| split; [| split]].
  - rewrite appendLists_filter. by rewrite app_nil_r.
  - rewrite appendLists_filter. simpl.
    induction B as [| x B IH]; [done |].
    rewrite filter_cons_True by (intros Hin; inversion Hin). by rewrite IH.
  - rewrite appendLists_filter, filter_none; [by rewrite app_nil_r |].
    intros x Hx Hn. done.
  - rewrite !appendLists_filter, filter_app, <- !app_assoc.
    f_equal. f_equal. rewrite filter_filter_and.
    apply filter_ext_elem. intros x _.
    rewrite elem_of_app, list_elem_of_filter.
    destruct (decide (x ∈ A)), (decide (x ∈ B)); tauto.
Qed.

(** ** [appendStringMaps] *)

(** X5. [appendStringMaps] panics exactly when its first argument is the nil
    map and its second argument has an entry. *)
Theorem appendStringMaps_panics_iff (a b : mapref) (h : heap) :
  appendStringMaps a b h = Panic <-> a = None /\ contents h b <> ∅.
Proof.
  destruct a as [l |].
  - destruct (appendStringMaps_allocated l b h) as (h' & -> & _).
    split; [discriminate | intros [? _]; discriminate].
  - rewrite appendStringMaps_nil.
    destruct (decide (contents h b = ∅)); split; try done.
    intros [_ Hne]. done.
Qed.

(** X6. With an allocated first argument [appendStringMaps] returns that
    very map object, which now holds the entries of the second argument over
    its own; the second argument and every other map object keep their
    entries, also when both arguments are the same object. *)
Theorem appendStringMaps_in_place (l : loc) (b : mapref) (h : heap) :
  exists h',
    appendStringMaps (Some l) b h = Done (Some l, h') /\
    contents h' (Some l) = contents h b ∪ contents h (Some l) /\
    contents h' b = contents h b /\
    forall r, r <> Some l -> contents h' r = contents h r.
Proof.
  destruct (appendStringMaps_allocated l b h) as (h' & Hrun & Hc & Hframe).
  exists h'. split; [done |]. split; [done |].
  assert (forall r, r <> Some l -> contents h' r = contents h r) as Hother.
  { intros r Hr. apply Hframe. destruct r as [l' |]; [| done].
    simpl. congruence. }
  split; [| done].
  destruct (decide (b = Some l)) as [-> | Hne]; [| by apply Hother].
  rewrite Hc. apply (idemp_L (∪)).
Qed.

(** ** [UpdateConfig] *)

Lemma policy_map_panics_iff (handling : GlobalHandlingType) (own glob : mapref)
    (h : heap) :
  policy_map handling own glob h = Panic <-> nil_write handling own glob h.
Proof.
  unfold policy_map, nil_write.
  destruct (decide (handling = appendGlobal)) as [Ha | Hna].
  - destruct glob as [l |].
    + destruct (appendStringMaps_allocated l own h) as (h' & -> & _).
      split; [discriminate | intros (_ & ? & _); discriminate].
    + rewrite appendStringMaps_nil.
      destruct (decide (contents h own = ∅)); split; try done.
      intros (_ & _ & Hne). done.
  - destruct (decide (_ \/ _)); split; try done; intros (? & _); done.
Qed.

Lemma policy_map_entries (handling : GlobalHandlingType) (own glob : mapref)
    (h : heap) (m : gmap string string) :
  policy_map handling own glob h = Done m ->
  m = if decide (handling = appendGlobal)
      then contents h own ∪ contents h glob
      else if decide (handling = replaceGlobal \/ contents h own <> ∅)
      then contents h own
      else contents h glob.
Proof.
  unfold policy_map.
  destruct (decide (handling = appendGlobal)) as [Ha | Hna].
  - destruct glob as [l |].
    + destruct (appendStringMaps_allocated l own h) as (h' & -> & Hc & _).
      run_bind. intros [= <-]. done.
    + rewrite appendStringMaps_nil.
      destruct (decide (contents h own = ∅)) as [He |]; [| discriminate].
      run_bind. intros [= <-]. rewrite He. simpl. by rewrite (left_id_L ∅ (∪)).
  - destruct (decide (_ \/ _)); by intros [= <-].
Qed.

(** The second block of [UpdateConfig] in full: what it returns, what it
    stores in the generator, and what it leaves alone. *)
Lemma UpdateConfig_Labels_Common_step (g : Generator) (gc : GeneratorConfig)
    (h : heap) :
  let handling := HandleLabel_Common (LocalLabel_GlobalHandling (Labels g)) in
  let own := Labels_Common g in
  let glob := Label_Common (Global_Labels gc) in
  match UpdateConfig_Labels_Common g gc h with
  | Done (g2, h2) =>
      policy_map handling own glob h = Done (contents h2 (Labels_Common g2)) /\
      Labels_Common g2 = policy_ref handling own glob h /\
      Labels_FromCRD g2 = Labels_FromCRD g /\
      Tags g2 = Tags g /\
      settings g2 = settings g /\
      (handling <> appendGlobal -> h2 = h) /\
      forall r, apart glob r -> contents h2 r = contents h r
  | Panic => policy_map handling own glob h = Panic
  end.
Proof.
  cbv zeta. unfold UpdateConfig_Labels_Common, policy_map, policy_ref.
  destruct (decide (_ = appendGlobal)) as [Ha | Hna].
  - destruct (Label_Common (Global_Labels gc)) as [l |].
    + destruct (appendStringMaps_allocated l (Labels_Common g) h)
        as (h1 & -> & Hc & Hframe).
      run_bind. repeat split; auto. done.
    + rewrite appendStringMaps_nil.
      destruct (decide (contents h (Labels_Common g) = ∅)); run_bind;
        repeat split; auto; done.
  - unfold map_len. destruct (bool_decide _ && _) eqn:E.
    + apply map_test in E. rewrite !decide_False by done.
      repeat split; auto.
    + destruct (decide (_ \/ _)) as [| Hn]; [repeat split; auto |].
      apply map_test in Hn. congruence.
Qed.

(** The fourth block, likewise. *)
Lemma UpdateConfig_Tags_Common_step (g : Generator) (gc : GeneratorConfig)
    (h : heap) :
  let handling := HandleTag_Common (LocalTag_GlobalHandling (Tags g)) in
  let own := Tags_Common g in
  let glob := Tag_Common (Global_Tags gc) in
  match UpdateConfig_Tags_Common g gc h with
  | Done (g2, h2) =>
      policy_map handling own glob h = Done (contents h2 (Tags_Common g2)) /\
      Tags_Common g2 = policy_ref handling own glob h /\
      Tags_FromLabels g2 = Tags_FromLabels g /\
      Labels g2 = Labels g /\
      settings g2 = settings g /\
      (handling <> appendGlobal -> h2 = h) /\
      forall r, apart glob r -> contents h2 r = contents h r
  | Panic => policy_map handling own glob h = Panic
  end.
Proof.
  cbv zeta. unfold UpdateConfig_Tags_Common, policy_map, policy_ref.
  destruct (decide (_ = appendGlobal)) as [Ha | Hna].
  - destruct (Tag_Common (Global_Tags gc)) as [l |].
    + destruct (appendStringMaps_allocated l (Tags_Common g) h)
        as (h1 & -> & Hc & Hframe).
      run_bind. repeat split; auto. done.
    + rewrite appendStringMaps_nil.
      destruct (decide (contents h (Tags_Common g) = ∅)); run_bind;
        repeat split; auto; done.
  - unfold map_len. destruct (bool_decide _ && _) eqn:E.
    + apply map_test in E. rewrite !decide_False by done.
      repeat split; auto.
    + destruct (decide (_ \/ _)) as [| Hn]; [repeat split; auto |].
      apply map_test in Hn. congruence.
Qed.

Lemma UpdateConfig_Labels_FromCRD_settings (g : Generator) (gc : GeneratorConfig) :
  settings (UpdateConfig_Labels_FromCRD g gc) = settings g.
Proof.
  unfold UpdateConfig_Labels_FromCRD.
  destruct (decide _); [done |]. by destruct (bool_decide _ && _).
Qed.

Lemma UpdateConfig_Tags_FromLabels_settings (g : Generator) (gc : GeneratorConfig) :
  settings (UpdateConfig_Tags_FromLabels g gc) = settings g.
Proof.
  unfold UpdateConfig_Tags_FromLabels.
  destruct (decide _); [done |]. by destruct (bool_decide _ && _).
Qed.

Lemma policy_ref_ext (handling : GlobalHandlingType) (own glob : mapref) (h h' : heap) :
  contents h own = contents h' own ->
  policy_ref handling own glob h = policy_ref handling own glob h'.
Proof. intros Hown. unfold policy_ref. by rewrite Hown. Qed.

(** Resolution as a whole, for label maps and tag maps that are different
    objects. *)
Lemma UpdateConfig_outcome (g : Generator) (gc : GeneratorConfig) (h : heap) :
  separate g gc ->
  let hl := HandleLabel_Common (LocalLabel_GlobalHandling (Labels g)) in
  let ht := HandleTag_Common (LocalTag_GlobalHandling (Tags g)) in
  let ownL := Labels_Common g in
  let ownT := Tags_Common g in
  let globL := Label_Common (Global_Labels gc) in
  let globT := Tag_Common (Global_Tags gc) in
  match UpdateConfig g (Some gc) h with
  | Done (g', h') =>
      policy_map hl ownL globL h = Done (contents h' (Labels_Common g')) /\
      policy_map ht ownT globT h = Done (contents h' (Tags_Common g')) /\
      Labels_Common g' = policy_ref hl ownL globL h /\
      Tags_Common g' = policy_ref ht ownT globT h /\
      Labels_FromCRD g' =
        policy_list (HandleLabel_FromCRD (LocalLabel_GlobalHandling (Labels g)))
          (Labels_FromCRD g) (Label_FromCRD (Global_Labels gc)) /\
      Tags_FromLabels g' =
        policy_list (HandleTag_FromLabels (LocalTag_GlobalHandling (Tags g)))
          (Tags_FromLabels g) (Tag_FromLabels (Global_Tags gc)) /\
      settings g' = settings g /\
      (forall r, apart globL r -> apart globT r -> contents h' r = contents h r) /\
      (hl <> appendGlobal -> contents h' globL = contents h globL) /\
      (ht <> appendGlobal -> contents h' globT = contents h globT)
  | Panic => nil_write hl ownL globL h \/ nil_write ht ownT globT h
  end.
Proof.
  intros (Hgg & Hgt & Hlg). cbv zeta. unfold UpdateConfig.
  destruct (UpdateConfig_Labels_FromCRD_policy g gc) as (Hl1 & Hc1 & Hh1 & Ht1).
  pose proof (UpdateConfig_Labels_FromCRD_settings g gc) as Hs1.
  set (g1 := UpdateConfig_Labels_FromCRD g gc) in *.
  pose proof (UpdateConfig_Labels_Common_step g1 gc h) as H2. cbv zeta in H2.
  rewrite Hh1, Hc1 in H2.
  destruct (UpdateConfig_Labels_Common g1 gc h) as [[g2 h2] |]; run_bind.
  2:{ left. by apply policy_map_panics_iff. }
  destruct H2 as (Hp2 & Hr2 & Hl2 & Ht2 & Hs2 & Hsame2 & Hf2).
  assert (Tags g2 = Tags g) as HT by congruence.
  assert (Tags_Common g2 = Tags_Common g) as HTC
    by (unfold Tags_Common; by rewrite HT).
  assert (Tags_FromLabels g2 = Tags_FromLabels g) as HTF
    by (unfold Tags_FromLabels; by rewrite HT).
  destruct (UpdateConfig_Tags_FromLabels_policy g2 gc) as (Hl3 & Hc3 & Hh3 & Ht3).
  pose proof (UpdateConfig_Tags_FromLabels_settings g2 gc) as Hs3.
  set (g3 := UpdateConfig_Tags_FromLabels g2 gc) in *.
  pose proof (UpdateConfig_Tags_Common_step g3 gc h2) as H4. cbv zeta in H4.
  rewrite Hh3, Hc3, HTC, HT in H4.
  rewrite (policy_map_ext _ _ _ h2 h) in H4 by (by apply Hf2).
  rewrite (policy_ref_ext _ _ _ h2 h) in H4 by (by apply Hf2).
  destruct (UpdateConfig_Tags_Common g3 gc h2) as [[g4 h4] |].
  2:{ right. by apply policy_map_panics_iff. }
  destruct H4 as (Hp4 & Hr4 & Hl4 & Ht4 & Hs4 & Hsame4 & Hf4).
  assert (Labels g4 = Labels g2) as HL by congruence.
  assert (Labels_Common g4 = Labels_Common g2) as HLC
    by (unfold Labels_Common; by rewrite HL).
  assert (apart (Tag_Common (Global_Tags gc)) (Labels_Common g2)) as Hap.
  { apply apart_sym. rewrite Hr2. unfold policy_ref.
    destruct (decide _); [done |]. by destruct (decide _). }
  repeat split.
  - rewrite Hp2, HLC. f_equal. symmetry. by apply Hf4.
  - done.
  - congruence.
  - done.
  - unfold Labels_FromCRD at 1. rewrite HL. fold (Labels_FromCRD g2). congruence.
  - rewrite Hl4, Hl3. by rewrite HT, HTF.
  - congruence.
  - intros r HrL HrT. rewrite Hf4 by done. by apply Hf2.
  - intros Hna. rewrite Hf4 by (by apply apart_sym). by rewrite (Hsame2 Hna).
  - intros Hna. rewrite (Hsame4 Hna). by apply Hf2.
Qed.

(** X7. For label maps and tag maps that are different objects,
    [UpdateConfig] panics exactly when a map sub-field under the append policy
    has local entries while the global map is nil. *)
Theorem UpdateConfig_panics_iff (g : Generator) (gc : GeneratorConfig) (h : heap) :
  separate g gc ->
  (UpdateConfig g (Some gc) h = Panic <->
   nil_write (HandleLabel_Common (LocalLabel_GlobalHandling (Labels g)))
     (Labels_Common g) (Label_Common (Global_Labels gc)) h \/
   nil_write (HandleTag_Common (LocalTag_GlobalHandling (Tags g)))
     (Tags_Common g) (Tag_Common (Global_Tags gc)) h).
Proof.
  intros Hsep. pose proof (UpdateConfig_outcome g gc h Hsep) as Hout.
  cbv zeta in Hout.
  destruct (UpdateConfig g (Some gc) h) as [[g' h'] |]; [| done].
  destruct Hout as (HpL & HpT & _).
  split; [discriminate |].
  intros [Hn | Hn]; apply policy_map_panics_iff in Hn; congruence.
Qed.

Lemma UpdateConfig_panics_iff_witness :
  separate sample_local sample_global_no_common /\
  UpdateConfig sample_local (Some sample_global_no_common) sample_heap = Panic.
Proof.
  assert (separate sample_local sample_global_no_common) as Hs by (by repeat split).
  split; [exact Hs |].
  apply (UpdateConfig_panics_iff sample_local sample_global_no_common sample_heap Hs).
  left. repeat split. vm_compute. discriminate.
Defined.

(** X8. [UpdateConfig] changes nothing of a generator but the four governed
    sub-fields, and writes no map object other than the two maps of the
    global configuration: the generator's own maps keep their entries. *)
Theorem UpdateConfig_writes_global_maps_only (g g' : Generator) (gc : GeneratorConfig)
    (h h' : heap) :
  UpdateConfig g (Some gc) h = Done (g', h') ->
  settings g' = settings g /\
  forall r, apart (Label_Common (Global_Labels gc)) r ->
            apart (Tag_Common (Global_Tags gc)) r ->
            contents h' r = contents h r.
Proof.
  unfold UpdateConfig.
  pose proof (UpdateConfig_Labels_FromCRD_settings g gc) as Hs1.
  set (g1 := UpdateConfig_Labels_FromCRD g gc) in *.
  pose proof (UpdateConfig_Labels_Common_step g1 gc h) as H2. cbv zeta in H2.
  destruct (UpdateConfig_Labels_Common g1 gc h) as [[g2 h2] |]; run_bind; [| done].
  destruct H2 as (_ & _ & _ & _ & Hs2 & _ & Hf2).
  pose proof (UpdateConfig_Tags_FromLabels_settings g2 gc) as Hs3.
  set (g3 := UpdateConfig_Tags_FromLabels g2 gc) in *.
  pose proof (UpdateConfig_Tags_Common_step g3 gc h2) as H4. cbv zeta in H4.
  destruct (UpdateConfig_Tags_Common g3 gc h2) as [[g4 h4] |]; [| done].
  destruct H4 as (_ & _ & _ & _ & Hs4 & _ & Hf4).
  intros [= <- <-]. split; [congruence |].
  intros r HrL HrT. rewrite Hf4 by done. by apply Hf2.
Qed.

Lemma UpdateConfig_writes_global_maps_only_witness :
  exists g' h',
    UpdateConfig sample_local (Some sample_global) sample_heap = Done (g', h') /\
    settings g' = settings sample_local /\
    contents h' (Labels_Common sample_local) = {["app" := "y"]}.
Proof.
  destruct (UpdateConfig sample_local (Some sample_global) sample_heap)
    as [[g' h'] |] eqn:E; [| vm_compute in E; discriminate].
  exists g', h'. split; [reflexivity |].
  destruct (UpdateConfig_writes_global_maps_only _ _ _ _ _ E) as [Hs Hf].
  split; [exact Hs |].
  rewrite (Hf (Labels_Common sample_local)); [reflexivity | |];
    simpl; discriminate.
Defined.

(** X9. After a resolution, each of the two maps of the global configuration
    holds the generator's entries over its own when its sub-field is under
    the append policy, and the entries it had otherwise. *)
Theorem UpdateConfig_global_maps_after (g g' : Generator) (gc : GeneratorConfig)
    (h h' : heap) :
  separate g gc ->
  UpdateConfig g (Some gc) h = Done (g', h') ->
  contents h' (Label_Common (Global_Labels gc)) =
    (if decide (HandleLabel_Common (LocalLabel_GlobalHandling (Labels g)) = appendGlobal)
     then contents h (Labels_Common g) ∪ contents h (Label_Common (Global_Labels gc))
     else contents h (Label_Common (Global_Labels gc))) /\
  contents h' (Tag_Common (Global_Tags gc)) =
    (if decide (HandleTag_Common (LocalTag_GlobalHandling (Tags g)) = appendGlobal)
     then contents h (Tags_Common g) ∪ contents h (Tag_Common (Global_Tags gc))
     else contents h (Tag_Common (Global_Tags gc))).
Proof.
  intros Hsep Hrun. pose proof (UpdateConfig_outcome g gc h Hsep) as Hout.
  cbv zeta in Hout. rewrite Hrun in Hout.
  destruct Hout as (HpL & HpT & HrL & HrT & _ & _ & _ & _ & HnL & HnT).
  apply policy_map_entries in HpL, HpT. unfold policy_ref in HrL, HrT.
  split.
  - destruct (decide (HandleLabel_Common _ = appendGlobal)) as [Ha | Hna];
      [| by apply HnL].
    rewrite HrL in HpL. exact HpL.
  - destruct (decide (HandleTag_Common _ = appendGlobal)) as [Ha | Hna];
      [| by apply HnT].
    rewrite HrT in HpT. exact HpT.
Qed.

Lemma UpdateConfig_global_maps_after_witness :
  exists g' h',
    UpdateConfig sample_local (Some sample_global) sample_heap = Done (g', h') /\
    contents h' (Label_Common (Global_Labels sample_global))
      = {["app" := "y"]} ∪ {["team" := "x"]} /\
    contents h' (Tag_Common (Global_Tags sample_global)) = {["owner" := "ops"]}.
Proof.
  destruct (UpdateConfig sample_local (Some sample_global) sample_heap)
    as [[g' h'] |] eqn:E; [| vm_compute in E; discriminate].
  assert (separate sample_local sample_global) as Hs by (by repeat split).
  exists g', h'. split; [reflexivity |].
  exact (UpdateConfig_global_maps_after _ _ _ _ _ Hs E).
Defined.

Lemma filter_idemp (P : string -> Prop) `{!forall x, Decision (P x)} (l : list string) :
  filter P (filter P l) = filter P l.
Proof.
  rewrite filter_filter_and. apply filter_ext_elem. intros x _. tauto.
Qed.

Lemma policy_list_idemp (handling : GlobalHandlingType) (own glob : list string) :
  policy_list handling (policy_list handling own glob) glob
  = policy_list handling own glob.
Proof.
  unfold policy_list.
  destruct (decide (handling = appendGlobal)) as [Ha | Hna].
  - rewrite !appendLists_filter, filter_app, filter_idemp.
    rewrite (filter_none (fun v => v ∉ glob) glob) by (intros x Hx Hn; done).
    done.
  - destruct (decide (handling = replaceGlobal \/ own <> [])) as [Hk | Hi].
    + by rewrite decide_True.
    + by destruct (decide (handling = replaceGlobal \/ glob <> [])).
Qed.

Lemma apart_or_eq (r1 r2 : mapref) : r1 = r2 \/ apart r1 r2.
Proof.
  destruct r1 as [l1 |], r2 as [l2 |]; simpl; auto.
  destruct (decide (l1 = l2)); [left; congruence | by right].
Qed.

(** Where a resolved map sub-field points, seen from the store after the
    resolution. *)
Lemma policy_ref_case (handling : GlobalHandlingType) (own glob r : mapref)
    (h h1 : heap) :
  r = policy_ref handling own glob h ->
  (handling <> appendGlobal -> contents h1 own = contents h own) ->
  (handling = appendGlobal -> r = glob) /\
  (handling <> appendGlobal -> handling <> replaceGlobal ->
   contents h1 r = ∅ -> r = glob).
Proof.
  intros -> Hown. unfold policy_ref.
  destruct (decide (handling = appendGlobal)) as [Ha | Hna]; [done |].
  split; [done |]. intros _ Hnr He.
  destruct (decide (_ \/ _)) as [[Hr | Hne] |]; [done | | done].
  rewrite Hown in He by done. done.
Qed.

(** A sub-field that already points where the policy sends it stays as it
    is when the policy is applied again. *)
Lemma policy_stable (handling : GlobalHandlingType) (r glob : mapref) (h1 : heap) :
  (handling = appendGlobal -> r = glob) ->
  (handling <> appendGlobal -> handling <> replaceGlobal ->
   contents h1 r = ∅ -> r = glob) ->
  policy_ref handling r glob h1 = r /\
  ~ nil_write handling r glob h1 /\
  forall m, policy_map handling r glob h1 = Done m -> m = contents h1 r.
Proof.
  intros Happ Hinh. split; [| split].
  - unfold policy_ref.
    destruct (decide (handling = appendGlobal)) as [Ha | Hna]; [by rewrite Happ |].
    destruct (decide (_ \/ _)) as [| Hn]; [done |].
    symmetry. apply Hinh; [done | tauto |].
    destruct (decide (contents h1 r = ∅)); tauto.
  - intros (Ha & Hg & Hne). rewrite (Happ Ha), Hg in Hne. done.
  - intros m Hm. apply policy_map_entries in Hm. subst m.
    destruct (decide (handling = appendGlobal)) as [Ha | Hna].
    + rewrite (Happ Ha). apply (idemp_L (∪)).
    + destruct (decide (_ \/ _)) as [| Hn]; [done |].
      assert (contents h1 r = ∅) as He
        by (destruct (decide (contents h1 r = ∅)); tauto).
      rewrite <- (Hinh Hna) at 1; [done | tauto | done].
Qed.

Lemma Generator_ext (g g' : Generator) :
  settings g = settings g' ->
  Labels_FromCRD g = Labels_FromCRD g' ->
  Labels_Common g = Labels_Common g' ->
  Tags_FromLabels g = Tags_FromLabels g' ->
  Tags_Common g = Tags_Common g' ->
  g = g'.
Proof.
  destruct g as [n v i [[tf tc] th] [[lf lc] lh] cp tt tp].
  destruct g' as [n' v' i' [[tf' tc'] th'] [[lf' lc'] lh'] cp' tt' tp'].
  unfold settings, Labels_FromCRD, Labels_Common, Tags_FromLabels, Tags_Common.
  simpl. intros [= -> -> -> -> -> -> -> ->] -> -> -> ->. done.
Qed.

(** X10. Resolution is idempotent: resolving an already resolved generator
    against the same global configuration returns the generator as it is and
    leaves every map with the entries it has. *)
Theorem UpdateConfig_idempotent (g g1 : Generator) (gc : GeneratorConfig)
    (h h1 : heap) :
  separate g gc ->
  UpdateConfig g (Some gc) h = Done (g1, h1) ->
  exists h2,
    UpdateConfig g1 (Some gc) h1 = Done (g1, h2) /\
    forall r, contents h2 r = contents h1 r.
Proof.
  intros Hsep Hrun. pose proof Hsep as (Hgg & Hgt & Hlg).
  pose proof (UpdateConfig_outcome g gc h Hsep) as F.
  cbv zeta in F. rewrite Hrun in F.
  destruct F as (HpL & HpT & HrL & HrT & HfL & HfT & Hset & Hfr & HnL & HnT).
  assert (LocalLabel_GlobalHandling (Labels g1) = LocalLabel_GlobalHandling (Labels g)
          /\ LocalTag_GlobalHandling (Tags g1) = LocalTag_GlobalHandling (Tags g))
    as [HhL HhT] by (unfold settings in Hset; by injection Hset).
  (* the generator's own maps as the first run left them *)
  assert (HandleLabel_Common (LocalLabel_GlobalHandling (Labels g)) <> appendGlobal ->
          contents h1 (Labels_Common g) = contents h (Labels_Common g)) as HownL.
  { intros Hna.
    destruct (apart_or_eq (Label_Common (Global_Labels gc)) (Labels_Common g))
      as [<- | Hap]; [by apply HnL |].
    apply Hfr; [done | by apply apart_sym]. }
  assert (HandleTag_Common (LocalTag_GlobalHandling (Tags g)) <> appendGlobal ->
          contents h1 (Tags_Common g) = contents h (Tags_Common g)) as HownT.
  { intros Hna.
    destruct (apart_or_eq (Tag_Common (Global_Tags gc)) (Tags_Common g))
      as [<- | Hap]; [by apply HnT |].
    by apply Hfr. }
  destruct (policy_ref_case _ _ _ _ h h1 HrL HownL) as [HaL HiL].
  destruct (policy_ref_case _ _ _ _ h h1 HrT HownT) as [HaT HiT].
  destruct (policy_stable _ _ _ h1 HaL HiL) as (HsrL & HsnL & HsmL).
  destruct (policy_stable _ _ _ h1 HaT HiT) as (HsrT & HsnT & HsmT).
  (* the resolved generator is again separate from the global maps *)
  assert (separate g1 gc) as Hsep1.
  { split; [done |]. split.
    - rewrite HrT. unfold policy_ref.
      destruct (decide _); [done |]. by destruct (decide _).
    - rewrite HrL. unfold policy_ref.
      destruct (decide _); [done |]. by destruct (decide _). }
  pose proof (UpdateConfig_outcome g1 gc h1 Hsep1) as F1.
  cbv zeta in F1. rewrite HhL, HhT in F1.
  destruct (UpdateConfig g1 (Some gc) h1) as [[g2 h2] |]; [| tauto].
  destruct F1 as (HpL1 & HpT1 & HrL1 & HrT1 & HfL1 & HfT1 & Hset1 & Hfr1 & HnL1 & HnT1).
  assert (g2 = g1) as ->.
  { apply Generator_ext.
    - done.
    - rewrite HfL1, HfL. apply policy_list_idemp.
    - by rewrite HrL1.
    - rewrite HfT1, HfT. apply policy_list_idemp.
    - by rewrite HrT1. }
  exists h2. split; [done |].
  apply HsmL in HpL1. apply HsmT in HpT1.
  assert (contents h2 (Label_Common (Global_Labels gc))
          = contents h1 (Label_Common (Global_Labels gc))) as HgL.
  { destruct (decide (HandleLabel_Common (LocalLabel_GlobalHandling (Labels g))
                      = appendGlobal)) as [Ha | Hna]; [| by apply HnL1].
    by rewrite <- (HaL Ha). }
  assert (contents h2 (Tag_Common (Global_Tags gc))
          = contents h1 (Tag_Common (Global_Tags gc))) as HgT.
  { destruct (decide (HandleTag_Common (LocalTag_GlobalHandling (Tags g))
                      = appendGlobal)) as [Ha | Hna]; [| by apply HnT1].
    by rewrite <- (HaT Ha). }
  intros r.
  destruct (apart_or_eq (Label_Common (Global_Labels gc)) r) as [<- | HapL]; [done |].
  destruct (apart_or_eq (Tag_Common (Global_Tags gc)) r) as [<- | HapT]; [done |].
  by apply Hfr1.
Qed.

Lemma UpdateConfig_idempotent_witness :
  exists g1 h1 h2,
    UpdateConfig sample_local (Some sample_global) sample_heap = Done (g1, h1) /\
    UpdateConfig g1 (Some sample_global) h1 = Done (g1, h2) /\
    contents h2 (Labels_Common g1) = contents h1 (Labels_Common g1).
Proof.
  destruct (UpdateConfig sample_local (Some sample_global) sample_heap)
    as [[g1 h1] |] eqn:E; [| vm_compute in E; discriminate].
  assert (separate sample_local sample_global) as Hs by (by repeat split).
  destruct (UpdateConfig_idempotent _ _ _ _ _ Hs E) as (h2 & Hrun & Hc).
  exists g1, h1, h2. split; [reflexivity |]. split; [exact Hrun |]. apply Hc.
Defined.

(** ** Validation of the global and of a resolved configuration *)

Lemma filter_nil_iff (P : string -> Prop) `{!forall x, Decision (P x)} (l : list string) :
  filter P l = [] <-> forall x, x ∈ l -> ~ P x.
Proof.
  split.
  - intros Hnil x Hx HP.
    assert (x ∈ filter P l) as Hin by (by apply list_elem_of_filter).
    rewrite Hnil in Hin. inversion Hin.
  - apply filter_none.
Qed.

Lemma CheckConfig_accepts (json_Marshal : list string -> string)
    (g : Generator) (gc : GeneratorConfig) (h : heap) :
  CheckConfig json_Marshal g (Some gc) h = Done None <->
  forall t, t ∈ Tags_FromLabels g ->
            is_Some (contents h (Label_Common (Global_Labels gc)) !! t) \/
            t ∈ Labels_FromCRD g \/ t ∈ globalLabels.
Proof.
  rewrite CheckConfig_filter. cbv zeta.
  destruct (filter _ (Tags_FromLabels g)) as [| t0 rest] eqn:Hoff.
  - rewrite decide_False by (simpl; lia). split; [| done].
    intros _ t Ht. apply (proj1 (filter_nil_iff _ _) Hoff) in Ht.
    set (P := _ \/ _) in *. by destruct (decide P).
  - rewrite decide_True by (simpl; lia). split; [discriminate |].
    intros Hall. assert (t0 ∈ t0 :: rest) as Hin by left.
    rewrite <- Hoff in Hin. apply list_elem_of_filter in Hin as [Hn Ht].
    destruct Hn. by apply Hall.
Qed.

(** X11. [checkConfig] accepts the nil configuration, and a configuration
    exactly when every entry of its [tags.fromLabels] is a key of its
    [labels.common], an element of its [labels.fromCRD] or a built-in label;
    otherwise its message ends with the JSON list of the other entries, in
    their order. *)
Theorem checkConfig_accepts_iff (json_Marshal : list string -> string)
    (gc : GeneratorConfig) (h : heap) :
  let known t :=
    is_Some (contents h (Label_Common (Global_Labels gc)) !! t) \/
    t ∈ Label_FromCRD (Global_Labels gc) \/
    t ∈ ["crossplane.io/claim-name"; "crossplane.io/claim-namespace";
         "crossplane.io/composite"; "external-name"] in
  let offending := filter (fun t => ~ known t) (Tag_FromLabels (Global_Tags gc)) in
  checkConfig json_Marshal None h = None /\
  (checkConfig json_Marshal (Some gc) h = None <->
   forall t, t ∈ Tag_FromLabels (Global_Tags gc) -> known t) /\
  checkConfig json_Marshal (Some gc) h =
    if decide (offending = []) then None
    else Some (checkConfig_message +:+ json_Marshal offending).
Proof.
  intros known offending. split; [done |].
  assert (checkConfig json_Marshal (Some gc) h =
          if decide (offending = []) then None
          else Some (checkConfig_message +:+ json_Marshal offending)) as Heq.
  { unfold checkConfig. cbv zeta.
    rewrite CheckConfig_loop_filter, app_nil_l.
    change (filter _ (Tag_FromLabels (Global_Tags gc))) with offending.
    unfold getJsonStringFromList.
    destruct offending as [| t rest]; [done |].
    simpl length. rewrite !decide_True by lia. by rewrite decide_False. }
  split; [| exact Heq].
  rewrite Heq.
  assert (offending = [] <-> forall t, t ∈ Tag_FromLabels (Global_Tags gc) -> known t)
    as Hnil.
  { unfold offending. rewrite filter_nil_iff. split; intros Hall t Ht.
    - destruct (decide (known t)) as [| Hn]; [done |]. by destruct (Hall t Ht).
    - intros Hn. apply Hn. by apply Hall. }
  rewrite <- Hnil. by destruct (decide (offending = [])).
Qed.

(** X12. Validation is monotone: a generator that is accepted stays accepted
    when entries are removed from its [tags.fromLabels], added to its
    [labels.fromCRD], or keys are added to the global [labels.common]. *)
Theorem CheckConfig_monotone (json_Marshal : list string -> string)
    (g g' : Generator) (gc gc' : GeneratorConfig) (h h' : heap) :
  (forall t, t ∈ Tags_FromLabels g' -> t ∈ Tags_FromLabels g) ->
  (forall t, t ∈ Labels_FromCRD g -> t ∈ Labels_FromCRD g') ->
  (forall t, is_Some (contents h (Label_Common (Global_Labels gc)) !! t) ->
             is_Some (contents h' (Label_Common (Global_Labels gc')) !! t)) ->
  CheckConfig json_Marshal g (Some gc) h = Done None ->
  CheckConfig json_Marshal g' (Some gc') h' = Done None.
Proof.
  intros Htags Hcrd Hkeys. rewrite !CheckConfig_accepts.
  intros Hall t Ht. destruct (Hall t (Htags t Ht)) as [Hk | [Hc | Hb]]; auto.
Qed.

(** A generator taking the tags "app" and "team" from labels is accepted
    because "app" is in its [labels.fromCRD] and "team" a key of the global
    [labels.common]; it is still accepted with the tag "app" dropped, the
    label "zone" added and the key "region" added to the global map.  Without
    "app" in [labels.fromCRD] the first generator is rejected. *)
Lemma CheckConfig_monotone_witness :
  CheckConfig sample_json_Marshal sample_local_own_labels (Some sample_global)
    sample_heap
  = Done (Some (CheckConfig_message +:+ "[" +:+ quote +:+ "app" +:+ quote +:+ "]")) /\
  CheckConfig sample_json_Marshal
    (set_Labels_FromCRD sample_local_own_labels ["app"]) (Some sample_global)
    sample_heap = Done None /\
  CheckConfig sample_json_Marshal
    (set_Tags_FromLabels (set_Labels_FromCRD sample_local_own_labels ["zone"; "app"])
       ["team"])
    (Some sample_global)
    (<[1%positive := <["region" := "eu"]> {["team" := "x"]}]> sample_heap)
  = Done None.
Proof.
  split; [vm_compute; reflexivity |].
  assert (CheckConfig sample_json_Marshal
            (set_Labels_FromCRD sample_local_own_labels ["app"]) (Some sample_global)
            sample_heap = Done None) as Hfirst by (vm_compute; reflexivity).
  split; [exact Hfirst |].
  apply (CheckConfig_monotone sample_json_Marshal
           (set_Labels_FromCRD sample_local_own_labels ["app"])
           (set_Tags_FromLabels
              (set_Labels_FromCRD sample_local_own_labels ["zone"; "app"]) ["team"])
           sample_global sample_global sample_heap
           (<[1%positive := <["region" := "eu"]> {["team" := "x"]}]> sample_heap)).
  - intros t Ht. apply list_elem_of_singleton in Ht. subst t.
    right. left.
  - intros t Ht. apply list_elem_of_singleton in Ht. subst t.
    right. left.
  - intros t [v Hv].
    change (contents sample_heap (Label_Common (Global_Labels sample_global)))
      with ({["team" := "x"]} : gmap string string) in Hv.
    apply lookup_singleton_Some in Hv as [<- <-].
    exists "x". vm_compute. reflexivity.
  - exact Hfirst.
Defined.

Lemma checkConfig_accepts (json_Marshal : list string -> string)
    (gc : GeneratorConfig) (h : heap) :
  checkConfig json_Marshal (Some gc) h = None <->
  forall t, t ∈ Tag_FromLabels (Global_Tags gc) ->
            is_Some (contents h (Label_Common (Global_Labels gc)) !! t) \/
            t ∈ Label_FromCRD (Global_Labels gc) \/ t ∈ globalLabels.
Proof.
  unfold checkConfig. cbv zeta. rewrite CheckConfig_loop_filter, app_nil_l.
  destruct (filter _ (Tag_FromLabels (Global_Tags gc))) as [| t0 rest] eqn:Hoff.
  - rewrite decide_False by (simpl; lia). split; [| done].
    intros _ t Ht. apply (proj1 (filter_nil_iff _ _) Hoff) in Ht.
    set (P := _ \/ _) in *. by destruct (decide P).
  - rewrite decide_True by (simpl; lia). split; [discriminate |].
    intros Hall. assert (t0 ∈ t0 :: rest) as Hin by left.
    rewrite <- Hoff in Hin. apply list_elem_of_filter in Hin as [Hn Ht].
    destruct Hn. by apply Hall.
Qed.

Lemma appendLists_elem (a b : list string) (v : string) :
  v ∈ appendLists a b <-> v ∈ a \/ v ∈ b.
Proof.
  rewrite appendLists_filter, elem_of_app, list_elem_of_filter.
  destruct (decide (v ∈ a)); tauto.
Qed.

Lemma policy_list_elem (handling : GlobalHandlingType) (own glob : list string)
    (t : string) :
  t ∈ policy_list handling own glob -> t ∈ own \/ t ∈ glob.
Proof.
  unfold policy_list.
  destruct (decide _); [rewrite appendLists_elem; tauto |].
  destruct (decide _); tauto.
Qed.

Lemma policy_list_own (handling : GlobalHandlingType) (own glob : list string)
    (t : string) :
  t ∈ own -> t ∈ policy_list handling own glob.
Proof.
  intros Ht. unfold policy_list.
  destruct (decide _); [rewrite appendLists_elem; tauto |].
  destruct (decide (_ \/ _)) as [| Hn]; [done |].
  destruct own; [inversion Ht |]. destruct Hn. by right.
Qed.

Lemma policy_list_glob (handling : GlobalHandlingType) (own glob : list string)
    (t : string) :
  handling = appendGlobal \/ (own = [] /\ handling <> replaceGlobal) ->
  t ∈ glob -> t ∈ policy_list handling own glob.
Proof.
  intros Hcase Ht. unfold policy_list.
  destruct (decide _) as [| Hna]; [rewrite appendLists_elem; tauto |].
  destruct Hcase as [| [-> Hnr]]; [done |].
  destruct (decide (_ \/ _)) as [[|] |]; done.
Qed.

(** X13. Validation carries over to the resolved generator: when the global
    configuration passes [checkConfig] and the generator, as loaded, passes
    [CheckConfig], the resolved generator passes [CheckConfig] as well,
    provided [labels.fromCRD] takes the global names (append, or default with
    no local names) or [tags.fromLabels] takes no global names (it keeps the
    local value). *)
Theorem CheckConfig_after_UpdateConfig (json_Marshal : list string -> string)
    (g g' : Generator) (gc : GeneratorConfig) (h h' : heap) :
  separate g gc ->
  checkConfig json_Marshal (Some gc) h = None ->
  CheckConfig json_Marshal g (Some gc) h = Done None ->
  (HandleLabel_FromCRD (LocalLabel_GlobalHandling (Labels g)) = appendGlobal \/
   (Labels_FromCRD g = [] /\
    HandleLabel_FromCRD (LocalLabel_GlobalHandling (Labels g)) <> replaceGlobal)) \/
  (HandleTag_FromLabels (LocalTag_GlobalHandling (Tags g)) <> appendGlobal /\
   (HandleTag_FromLabels (LocalTag_GlobalHandling (Tags g)) = replaceGlobal \/
    Tags_FromLabels g <> [])) ->
  UpdateConfig g (Some gc) h = Done (g', h') ->
  CheckConfig json_Marshal g' (Some gc) h' = Done None.
Proof.
  intros Hsep Hglobal Hlocal Hcase Hrun.
  rewrite checkConfig_accepts in Hglobal. rewrite CheckConfig_accepts in Hlocal.
  apply CheckConfig_accepts.
  pose proof (UpdateConfig_outcome g gc h Hsep) as F.
  cbv zeta in F. rewrite Hrun in F.
  destruct F as (HpL & _ & HrL & _ & HfL & HfT & _ & _ & HnL & _).
  assert (forall t, is_Some (contents h (Label_Common (Global_Labels gc)) !! t) ->
                    is_Some (contents h' (Label_Common (Global_Labels gc)) !! t))
    as Hkeys.
  { intros t [v Hv].
    destruct (decide (HandleLabel_Common (LocalLabel_GlobalHandling (Labels g))
                      = appendGlobal)) as [Ha | Hna]; [| rewrite HnL by done; eauto].
    apply policy_map_entries in HpL. rewrite decide_True in HpL by done.
    unfold policy_ref in HrL. rewrite decide_True in HrL by done.
    rewrite HrL in HpL. rewrite HpL.
    destruct (contents h (Labels_Common g) !! t) as [w |] eqn:Hw.
    - exists w. by apply lookup_union_Some_l.
    - exists v. rewrite lookup_union_r by done. done. }
  assert (forall t, t ∈ Tags_FromLabels g ->
            is_Some (contents h' (Label_Common (Global_Labels gc)) !! t) \/
            t ∈ Labels_FromCRD g' \/ t ∈ globalLabels) as Hown.
  { intros t Ht. destruct (Hlocal t Ht) as [Hk | [Hc | Hb]]; auto.
    right; left. rewrite HfL. by apply policy_list_own. }
  intros t Ht. rewrite HfT in Ht.
  destruct Hcase as [Hlabels | [Hna Hkeep]].
  - apply policy_list_elem in Ht as [Ht | Ht]; [by apply Hown |].
    destruct (Hglobal t Ht) as [Hk | [Hc | Hb]]; auto.
    right; left. rewrite HfL. by apply policy_list_glob.
  - unfold policy_list in Ht. rewrite decide_False, decide_True in Ht by done.
    by apply Hown.
Qed.

(** The global configuration [sample_global_valid] and a generator with
    nothing of its own: resolution makes it take the global tag names "team"
    and "a", which are known from the global [labels.common] and the
    inherited [labels.fromCRD]. *)
Lemma CheckConfig_after_UpdateConfig_witness :
  exists g' h',
    UpdateConfig sample_local_plain (Some sample_global_valid) sample_heap
      = Done (g', h') /\
    Tags_FromLabels g' = ["team"; "a"] /\
    CheckConfig sample_json_Marshal g' (Some sample_global_valid) h' = Done None.
Proof.
  destruct (UpdateConfig sample_local_plain (Some sample_global_valid) sample_heap)
    as [[g' h'] |] eqn:E; [| vm_compute in E; discriminate].
  exists g', h'. split; [reflexivity |]. split.
  - vm_compute in E. by injection E as <- <-.
  - apply (CheckConfig_after_UpdateConfig sample_json_Marshal sample_local_plain g'
             sample_global_valid sample_heap h').
    + by repeat split.
    + reflexivity.
    + reflexivity.
    + left. right. split; [reflexivity | discriminate].
    + exact E.
Defined.

(** ** Tag-schema detection, continued *)

Lemma tryToGetTags_is_loop (crd : CustomResourceDefinition) (version : string) :
  tryToGetTags crd version = tryToGetTags_loop (Versions (Spec crd)) version.
Proof.
  unfold tryToGetTags. destruct (decide (0 < _)) as [| Hz]; [done |].
  destruct (Versions (Spec crd)); [done | simpl in Hz; lia].
Qed.

(** X14. Detection looks at the version entries that carry the requested
    name only: the other entries can be dropped without changing the result.
    In particular nothing is found, and the unknown result is returned, when
    no entry carries the name. *)
Theorem tryToGetTags_same_name_entries_only (crd : CustomResourceDefinition)
    (version : string) :
  let named := filter (fun sv => Version_Name sv = version) (Versions (Spec crd)) in
  tryToGetTags crd version = tryToGetTags {| Spec := {| Versions := named |} |} version /\
  (named = [] ->
   tryToGetTags crd version = Done None /\ checkTagType crd version = Done ("", "")).
Proof.
  intros named.
  assert (tryToGetTags crd version
          = tryToGetTags {| Spec := {| Versions := named |} |} version) as Heq.
  { rewrite !tryToGetTags_is_loop. simpl. unfold named.
    induction (Versions (Spec crd)) as [| sv rest IH]; [done |].
    rewrite filter_cons. simpl.
    destruct (decide (Version_Name sv = version)) as [Hn | Hn]; [| exact IH].
    simpl. rewrite decide_True by done.
    destruct (tryToGetTags_at sv) as [[r |] |]; simpl; done. }
  split; [exact Heq |]. intros Hnil.
  assert (tryToGetTags crd version = Done None) as Hnone
    by (rewrite Heq, Hnil; reflexivity).
  split; [exact Hnone |]. unfold checkTagType. by rewrite Hnone.
Qed.

(** X15. Among the entries that carry the requested name, the first one that
    has a [tags] or [tagging.tagSet] property decides: entries with that name
    before it that have a schema but neither property are passed over. *)
Theorem tryToGetTags_first_with_tags (crd : CustomResourceDefinition)
    (version : string) (pre post : list CustomResourceDefinitionVersion)
    (sv : CustomResourceDefinitionVersion) (r : JSONSchemaProps * string) :
  Versions (Spec crd) = pre ++ sv :: post ->
  Forall (fun e => Version_Name e = version -> tryToGetTags_at e = Done None) pre ->
  Version_Name sv = version ->
  tryToGetTags_at sv = Done (Some r) ->
  tryToGetTags crd version = Done (Some r).
Proof.
  intros Hvs Hpre Hname Hat. rewrite tryToGetTags_is_loop, Hvs. clear Hvs.
  induction Hpre as [| e pre He _ IH]; simpl.
  - rewrite decide_True by done. by rewrite Hat.
  - destruct (decide (Version_Name e = version)) as [Hn | Hn]; [| exact IH].
    rewrite (He Hn). run_bind. exact IH.
Qed.

Lemma tryToGetTags_first_with_tags_witness :
  tryToGetTags crd_two_entries "v1beta1" = Done (Some (tags_string_object, "tag")).
Proof.
  apply (tryToGetTags_first_with_tags crd_two_entries "v1beta1"
           (Versions (Spec (crd_forProvider ∅)))
           []
           {| Version_Name := "v1beta1";
              Version_Schema := Some {| OpenAPIV3Schema := Some
                (schema_object {[ "spec" :=
                   schema_object {[ "forProvider" :=
                     schema_object {["tags" := tags_string_object]} ]} ]}) |} |}).
  - reflexivity.
  - apply Forall_cons. split; [| apply Forall_nil_2].
    intros _. vm_compute. reflexivity.
  - reflexivity.
  - vm_compute. reflexivity.
Defined.

Lemma tryToGetTags_at_property (sv : CustomResourceDefinitionVersion)
    (tags : JSONSchemaProps) (tagProperty : string) :
  tryToGetTags_at sv = Done (Some (tags, tagProperty)) ->
  tagProperty = "tag" \/ tagProperty = "tagSet".
Proof.
  unfold tryToGetTags_at.
  destruct (Version_Schema sv) as [validation |]; cbn [deref]; run_bind;
    [| discriminate].
  destruct (OpenAPIV3Schema validation) as [root |]; cbn [deref]; [| discriminate].
  destruct (Properties root !! "spec") as [specs |]; [| discriminate].
  destruct (Properties specs !! "forProvider") as [forProvider |]; [| discriminate].
  destruct (Properties forProvider !! "tags"); [intros [= _ <-]; by left |].
  destruct (Properties forProvider !! "tagging") as [tagging |]; [| discriminate].
  destruct (Properties tagging !! "tagSet"); [intros [= _ <-]; by right | discriminate].
Qed.

Lemma tryToGetTags_property (crd : CustomResourceDefinition) (version : string)
    (tags : JSONSchemaProps) (tagProperty : string) :
  tryToGetTags crd version = Done (Some (tags, tagProperty)) ->
  tagProperty = "tag" \/ tagProperty = "tagSet".
Proof.
  rewrite tryToGetTags_is_loop.
  induction (Versions (Spec crd)) as [| sv rest IH]; [discriminate |].
  simpl. destruct (decide (Version_Name sv = version)); [| exact IH].
  destruct (tryToGetTags_at sv) as [[[t p] |] |] eqn:Hat; run_bind.
  - intros [= <- <-]. by apply (tryToGetTags_at_property sv t).
  - exact IH.
  - discriminate.
Qed.

(** X16. Whatever the document, a result of [checkTagType] is either the
    unknown one, with both strings empty, or one of the three encodings
    together with the property name "tag" or "tagSet". *)
Theorem checkTagType_result_range (crd : CustomResourceDefinition) (version : string)
    (tagType' tagProperty' : string) :
  checkTagType crd version = Done (tagType', tagProperty') ->
  (tagType' = "" /\ tagProperty' = "") \/
  ((tagType' = "keyValueArray" \/ tagType' = "tagKeyValueArray" \/
    tagType' = "stringObject") /\
   (tagProperty' = "tag" \/ tagProperty' = "tagSet")).
Proof.
  unfold checkTagType.
  destruct (tryToGetTags crd version) as [[[tags p] |] |] eqn:Hfound; run_bind;
    [| intros [= <- <-]; by left | discriminate].
  pose proof (tryToGetTags_property _ _ _ _ Hfound) as Hp.
  unfold checkTagType_array, checkTagType_object. run_bind.
  destruct (decide (Type_ tags = "array")).
  - destruct (Items tags) as [its |]; cbn [deref]; [| discriminate].
    destruct (Items_Schema its) as [s |]; cbn [deref]; [| discriminate]. cbv zeta.
    assert (Type_ tags <> "object") as Hno by (intros Ho; congruence).
    rewrite (decide_False _ _ Hno).
    destruct (decide (Type_ s = "object")); [| intros [= <- <-]; by left].
    destruct (_ && _); [intros [= <- <-]; right; tauto |].
    destruct (_ && _); intros [= <- <-]; [right; tauto | by left].
  - destruct (decide (Type_ tags = "object")); [| intros [= <- <-]; by left].
    destruct (AdditionalProperties tags) as [ap |]; cbn [deref]; [| discriminate].
    destruct (AdditionalProperties_Schema ap) as [s |]; cbn [deref]; [| discriminate].
    destruct (decide (Type_ s = "string")); intros [= <- <-]; [right; tauto | by left].
Qed.

Lemma checkTagType_result_range_witness :
  exists t p,
    checkTagType
      (crd_forProvider {["tagging" := schema_object {["tagSet" := tags_key_value]}]})
      "v1beta1" = Done (t, p) /\
    ((t = "" /\ p = "") \/
     ((t = "keyValueArray" \/ t = "tagKeyValueArray" \/ t = "stringObject") /\
      (p = "tag" \/ p = "tagSet"))).
Proof.
  exists "keyValueArray", "tagSet".
  assert (checkTagType
            (crd_forProvider {["tagging" := schema_object {["tagSet" := tags_key_value]}]})
            "v1beta1" = Done ("keyValueArray", "tagSet")) as Hrun
    by (vm_compute; reflexivity).
  split; [exact Hrun |]. exact (checkTagType_result_range _ _ _ _ Hrun).
Defined.

(** X17. For an array-typed node that [tryToGetTags] found and whose item
    schema is present, the classification is: "keyValueArray" when the items
    are objects with [key] and [value] properties (whether or not they also
    have [tagKey] and [tagValue]), else "tagKeyValueArray" when they are
    objects with [tagKey] and [tagValue], else unknown. *)
Theorem checkTagType_classifies_array (crd : CustomResourceDefinition)
    (version : string) (tags : JSONSchemaProps) (tagProperty' : string)
    (its : JSONSchemaPropsOrArray) (itemSchema : JSONSchemaProps) :
  tryToGetTags crd version = Done (Some (tags, tagProperty')) ->
  Type_ tags = "array" ->
  Items tags = Some its ->
  Items_Schema its = Some itemSchema ->
  let has k := bool_decide (is_Some (Properties itemSchema !! k)) in
  checkTagType crd version =
    Done (if bool_decide (Type_ itemSchema = "object") && has "key" && has "value"
          then ("keyValueArray", tagProperty')
          else if bool_decide (Type_ itemSchema = "object") && has "tagKey" && has "tagValue"
          then ("tagKeyValueArray", tagProperty')
          else ("", "")).
Proof.
  intros Hfound Harr Hits Hschema has.
  unfold checkTagType, checkTagType_array, checkTagType_object.
  rewrite Hfound. run_bind.
  rewrite (decide_True _ _ Harr), Hits. cbn [deref].
  rewrite Hschema. cbn [deref]. cbv zeta.
  assert (Type_ tags <> "object") as Hno by (rewrite Harr; discriminate).
  rewrite (decide_False _ _ Hno).
  fold (has "key") (has "value") (has "tagKey") (has "tagValue").
  destruct (decide (Type_ itemSchema = "object")) as [Ho | Ho].
  - rewrite (bool_decide_eq_true_2 _ Ho). simpl.
    destruct (has "key" && has "value"); [done |].
    by destruct (has "tagKey" && has "tagValue").
  - rewrite (bool_decide_eq_false_2 _ Ho). done.
Qed.

Lemma checkTagType_classifies_array_witness :
  checkTagType (crd_forProvider {["tags" := tags_tagKey_tagValue]}) "v1beta1"
  = Done ("tagKeyValueArray", "tag").
Proof.
  rewrite (checkTagType_classifies_array
             (crd_forProvider {["tags" := tags_tagKey_tagValue]}) "v1beta1"
             tags_tagKey_tagValue "tag"
             (MkJSONSchemaPropsOrArray
                (Some (schema_object (<["tagKey" := schema_of_type "string"]>
                                        {["tagValue" := schema_of_type "string"]})))
                [])
             (schema_object (<["tagKey" := schema_of_type "string"]>
                               {["tagValue" := schema_of_type "string"]}))).
  - vm_compute. reflexivity.
  - vm_compute. reflexivity.
  - reflexivity.
  - reflexivity.
  - reflexivity.
Defined.

(** X18. For an object-typed node that [tryToGetTags] found and whose
    [additionalProperties] schema is present, the classification is
    "stringObject" when that schema has type string, and unknown otherwise;
    a found node whose type is neither array nor object is unknown. *)
Theorem checkTagType_classifies_object (crd : CustomResourceDefinition)
    (version : string) (tags : JSONSchemaProps) (tagProperty' : string) :
  tryToGetTags crd version = Done (Some (tags, tagProperty')) ->
  (forall ap apSchema,
     Type_ tags = "object" ->
     AdditionalProperties tags = Some ap ->
     AdditionalProperties_Schema ap = Some apSchema ->
     checkTagType crd version =
       Done (if decide (Type_ apSchema = "string")
             then ("stringObject", tagProperty') else ("", ""))) /\
  (Type_ tags <> "array" -> Type_ tags <> "object" ->
   checkTagType crd version = Done ("", "")).
Proof.
  intros Hfound.
  unfold checkTagType, checkTagType_array, checkTagType_object.
  rewrite Hfound. run_bind. split.
  - intros ap apSchema Hobj Hap Hschema.
    assert (Type_ tags <> "array") as Hna by (rewrite Hobj; discriminate).
    rewrite (decide_False _ _ Hna), (decide_True _ _ Hobj), Hap. cbn [deref].
    rewrite Hschema. cbn [deref].
    by destruct (decide (Type_ apSchema = "string")).
  - intros Hna Hno. by rewrite (decide_False _ _ Hna), (decide_False _ _ Hno).
Qed.

Lemma checkTagType_classifies_object_witness :
  checkTagType (crd_forProvider {["tags" := schema_of_type "string"]}) "v1beta1"
  = Done ("", "").
Proof.
  apply (checkTagType_classifies_object
           (crd_forProvider {["tags" := schema_of_type "string"]}) "v1beta1"
           (schema_of_type "string") "tag").
  - vm_compute. reflexivity.
  - simpl. discriminate.
  - simpl. discriminate.
Defined.

(** X19. Detection returns a result, rather than panicking, whenever every
    level it dereferences is present: each version entry with the requested
    name has its schema, an array-typed node has its item schema and an
    object-typed node the schema of its additional properties. *)
Theorem checkTagType_returns_on_complete_schema (crd : CustomResourceDefinition)
    (version : string) :
  Forall (fun sv => Version_Name sv = version ->
                    exists validation root,
                      Version_Schema sv = Some validation /\
                      OpenAPIV3Schema validation = Some root)
         (Versions (Spec crd)) ->
  (forall tags tagProperty',
     tryToGetTags crd version = Done (Some (tags, tagProperty')) ->
     (Type_ tags = "array" ->
      exists its itemSchema,
        Items tags = Some its /\ Items_Schema its = Some itemSchema) /\
     (Type_ tags = "object" ->
      exists ap apSchema,
        AdditionalProperties tags = Some ap /\
        AdditionalProperties_Schema ap = Some apSchema)) ->
  exists result, checkTagType crd version = Done result.
Proof.
  intros Hversions Hnode.
  destruct (tryToGetTags_returns crd version Hversions) as [[[tags p] |] Hfound].
  - destruct (Hnode tags p Hfound) as [Harr Hobj].
    destruct (checkTagType_returns crd version tags p Hfound Harr Hobj) as [t Ht].
    eauto.
  - exists ("", ""). unfold checkTagType. by rewrite Hfound.
Qed.

Lemma checkTagType_returns_on_complete_schema_witness :
  exists result,
    checkTagType (crd_forProvider {["tags" := tags_string_object]}) "v1beta1"
    = Done result.
Proof.
  apply (checkTagType_returns_on_complete_schema
           (crd_forProvider {["tags" := tags_string_object]}) "v1beta1").
  - apply Forall_cons. split; [| apply Forall_nil_2].
    intros _. eexists _, _. split; reflexivity.
  - intros tags p Hfound. vm_compute in Hfound. injection Hfound as <- <-.
    split.
    + intros Harr. vm_compute in Harr. discriminate.
    + intros _. eexists _, _. split; reflexivity.
Defined.

(** ** [LoadCRD] *)



(** X21. A requested version that the document does not have is no error for
    [LoadCRD]: the version asked for is [provider.crd.version], or the
    generator's own version when that is empty, and when no entry carries it
    the nil error is returned with [tagType] and [tagProperty] set to the
    empty string and [crdSource] set to the text of the document; the name,
    version, ignore flag, tags, labels and configuration path of the
    generator are not assigned. *)
Theorem LoadCRD_detect_version_absent (g : Generator) (crd : CrdConfig)
    (crd2 : CustomResourceDefinition) (r : string) :
  Forall (fun sv => Version_Name sv <>
                    if decide (CRD_Version crd = "") then Version g else CRD_Version crd)
         (Versions (Spec crd2)) ->
  exists g',
    LoadCRD_detect g crd crd2 r = Done (g', r) /\
    tagType g' = "" /\ tagProperty g' = "" /\
    (Name g', Version g', Ignore g', Tags g', Labels g', configPath g')
    = (Name g, Version g, Ignore g, Tags g, Labels g, configPath g).
Proof.
  intros Habsent. unfold LoadCRD_detect. cbv zeta.
  destruct (tryToGetTags_version_absent crd2 _ Habsent) as [_ ->].
  run_bind. eexists. split; [reflexivity |]. done.
Qed.

Lemma LoadCRD_detect_version_absent_witness :
  exists g',
    LoadCRD_detect sample_local {| CRD_File := "buckets.yaml"; CRD_Version := "v1" |}
      (crd_forProvider {["tags" := tags_key_value]}) "{}" = Done (g', "{}") /\
    tagType g' = "" /\ tagProperty g' = "" /\
    (Name g', Version g', Ignore g', Tags g', Labels g', configPath g')
    = (Name sample_local, Version sample_local, Ignore sample_local,
       Tags sample_local, Labels sample_local, configPath sample_local).
Proof.
  apply (LoadCRD_detect_version_absent sample_local
           {| CRD_File := "buckets.yaml"; CRD_Version := "v1" |}
           (crd_forProvider {["tags" := tags_key_value]}) "{}").
  apply Forall_cons. split; [| apply Forall_nil_2].
  vm_compute. discriminate.
Defined.

(** ** Output loop, continued *)

Section OutputFurther.
Context {content : Type}.
Variable yaml_Marshal : content -> string.
Variable yaml_Unmarshal : string -> content.
Variable cmp_Equal : content -> content -> bool.
Variable filepath_Join : string -> string -> string.

Local Abbreviation write' :=
  (Exec_write content yaml_Marshal yaml_Unmarshal cmp_Equal filepath_Join).
Local Abbreviation loop' :=
  (Exec_write_loop content yaml_Marshal yaml_Unmarshal cmp_Equal filepath_Join).
Local Abbreviation unchanged' :=
  (Exec_unchanged content yaml_Unmarshal cmp_Equal filepath_Join).
Local Abbreviation run' :=
  (Exec_output content yaml_Marshal yaml_Unmarshal cmp_Equal filepath_Join).
Local Abbreviation fp' := (Exec_fp filepath_Join).

Lemma Exec_write_lookup (outPath header fn : string) (fc : content)
    (files : gmap string string) (p : string) :
  write' outPath header fn fc files !! p =
    if decide (p = fp' outPath fn)
    then if unchanged' outPath fn fc files then files !! p
         else Some (header +:+ yaml_Marshal fc)
    else files !! p.
Proof.
  rewrite Exec_write_cases.
  destruct (unchanged' outPath fn fc files); [by destruct (decide _) |].
  destruct (decide (p = fp' outPath fn)) as [-> | Hne].
  - by rewrite lookup_insert_eq.
  - by rewrite lookup_insert_ne.
Qed.




(** X23. After the loop each path holds either what it held before or the
    header followed by the YAML text of a key whose destination it is. *)
Theorem Exec_output_file_origin (g : Generator) (outputPath now : string)
    (jso : list (string * content)) (files : gmap string string) (p : string) :
  let after := run' g outputPath now jso files in
  after !! p = files !! p \/
  exists fn fc,
    (fn, fc) ∈ jso /\
    p = filepath_Join (Exec_outPath g outputPath) fn +:+ ".yaml" /\
    after !! p = Some (autogenHeader now +:+ yaml_Marshal fc).
Proof.
  cbv zeta. unfold Exec_output.
  set (outPath := Exec_outPath g outputPath). set (header := autogenHeader now).
  revert files. induction jso as [| [fn fc] rest IH]; intros files; [by left |].
  simpl. destruct (IH (write' outPath header fn fc files)) as [Hsame | Hnew].
  - rewrite Hsame, Exec_write_lookup.
    destruct (decide (p = fp' outPath fn)) as [Hp | _]; [| by left].
    destruct (unchanged' outPath fn fc files); [by left |].
    right. exists fn, fc. split; [left |]. done.
  - destruct Hnew as (fn' & fc' & Hin & Hp & Hafter).
    right. exists fn', fc'. split; [by right |]. done.
Qed.

Lemma Exec_write_commute (outPath header : string) (fn1 fn2 : string)
    (fc1 fc2 : content) (files : gmap string string) :
  fp' outPath fn1 <> fp' outPath fn2 ->
  write' outPath header fn1 fc1 (write' outPath header fn2 fc2 files)
  = write' outPath header fn2 fc2 (write' outPath header fn1 fc1 files).
Proof.
  intros Hne. apply map_eq. intros p.
  rewrite !Exec_write_lookup. unfold Exec_unchanged.
  rewrite !Exec_write_lookup.
  repeat case_decide; subst; congruence.
Qed.

(** X24. The files left by the loop do not depend on the order in which the
    keys are visited, as long as no two keys have the same destination. *)
Theorem Exec_output_order_independent (g : Generator) (outputPath now : string)
    (jso jso' : list (string * content)) (files : gmap string string) :
  NoDup ((fun kv => fp' (Exec_outPath g outputPath) kv.1) <$> jso) ->
  jso ≡ₚ jso' ->
  run' g outputPath now jso files = run' g outputPath now jso' files.
Proof.
  unfold Exec_output.
  set (outPath := Exec_outPath g outputPath). set (header := autogenHeader now).
  intros Hnd Hperm. revert files Hnd.
  induction Hperm as [| [fn fc] l l' _ IH | [fn1 fc1] [fn2 fc2] l | l l' l'' Hp1 IH1 Hp2 IH2];
    intros files Hnd.
  - done.
  - simpl. apply IH. rewrite fmap_cons in Hnd. by apply NoDup_cons in Hnd as [_ ?].
  - simpl. f_equal. apply Exec_write_commute.
    rewrite !fmap_cons in Hnd. apply NoDup_cons in Hnd as [Hnotin _].
    simpl in Hnotin. intros Heq. apply Hnotin. rewrite Heq. left.
  - rewrite IH1 by done. apply IH2.
    by rewrite <- Hp1.
Qed.
End OutputFurther.

Lemma Exec_output_order_independent_witness :
  Exec_output string sample_yaml_Marshal sample_yaml_Unmarshal sample_cmp_Equal
    sample_filepath_Join sample_local "out" "10:00:00 on 01-02-2024" sample_jso ∅
  = Exec_output string sample_yaml_Marshal sample_yaml_Unmarshal sample_cmp_Equal
      sample_filepath_Join sample_local "out" "10:00:00 on 01-02-2024"
      (reverse sample_jso) ∅.
Proof.
  apply (Exec_output_order_independent sample_yaml_Marshal sample_yaml_Unmarshal
           sample_cmp_Equal sample_filepath_Join sample_local "out"
           "10:00:00 on 01-02-2024" sample_jso (reverse sample_jso) ∅).
  - cbn [fmap list_fmap sample_jso fst].
    apply NoDup_cons. split; [| apply NoDup_singleton].
    intros Hin. apply list_elem_of_singleton in Hin. vm_compute in Hin.
    discriminate.
  - symmetry. apply reverse_Permutation.
Defined.

(** ** Documents the second run rewrites *)

(** C6 (counterexample). The second run does change files in two cases.  A
    document that is a list is written by the first run, but its file is
    decoded into an object, which is never equal to the list: the second run
    writes the file again, with the later time in its header.  And two keys
    whose destinations [filepath.Join] cleans to the same path overwrite each
    other's file, so that each run finds the document of the other key and
    writes again.  An object document behind a key of its own is left alone
    by the second run. *)
Lemma Exec_output_second_run_rewrites :
  let run := Exec_output sample_doc sample_doc_Marshal sample_doc_Unmarshal
               sample_doc_Equal sample_clean_Join sample_local "out" in
  let now := "10:00:00 on 01-02-2024" in
  let later := "11:00:00 on 01-02-2024" in
  let names := [("names", DocList ["bucket"; "queue"])] in
  let twins := [("bucket", DocObject [("kind", "Bucket")]);
                ("./bucket", DocObject [("kind", "Queue")])] in
  let single := [("bucket", DocObject [("kind", "Bucket")])] in
  (run now names ∅ !! "out/names.yaml"
     = Some (autogenHeader now +:+ sample_doc_Marshal (DocList ["bucket"; "queue"])) /\
   run later names (run now names ∅) !! "out/names.yaml"
     = Some (autogenHeader later +:+ sample_doc_Marshal (DocList ["bucket"; "queue"])) /\
   bool_decide (run later names (run now names ∅) = run now names ∅) = false) /\
  (run now twins ∅ !! "out/bucket.yaml"
     = Some (autogenHeader now +:+ sample_doc_Marshal (DocObject [("kind", "Queue")])) /\
   run later twins (run now twins ∅) !! "out/bucket.yaml"
     = Some (autogenHeader later +:+ sample_doc_Marshal (DocObject [("kind", "Queue")])) /\
   bool_decide (run later twins (run now twins ∅) = run now twins ∅) = false) /\
  run later single (run now single ∅) = run now single ∅.
Proof. cbv zeta. repeat split; vm_compute; reflexivity. Qed.
